(** * diagnostics/srk_diagonal.py: sample-path and strong-order diagnostics

    A shallow embedding of the two experiments of
    [diagnostics/srk_diagonal.py] and of the module's top-level code.

    Numbers.  The program computes in IEEE double precision.  The embedding
    idealises tensor entries, times and step sizes as exact rationals ([Q]);
    the values that come out of [np.log] live in [xfloat], the reals extended
    with the two infinities and NaN, because the logarithm of zero is the one
    place where the program leaves the finite numbers.

    Effects.  The experiments call services that live outside this file
    (the integrator [sdeint], the Brownian path, the analytical sampler, the
    regression primitive, matplotlib).  The services are parameters of the
    embedding; every call is recorded, with its arguments and its return
    value, in a trace that is threaded through a state-and-exception monad
    together with the module's global names and the store of Brownian-path
    objects. *)

From Stdlib Require Import QArith Qreals Reals Lra Lia.
From Stdlib Require Import DecimalString DecimalNat DecimalFacts.
From stdpp Require Import gmap strings list.

Local Open Scope string_scope.
Local Open Scope list_scope.

(** ** Exceptions and results *)

Inductive exn : Type :=
| NameError (name : string)
| UnboundLocalError (name : string)
| ValueError (msg : string)
| TypeError (msg : string)
| IndexError (msg : string)
| RuntimeError (msg : string).

Inductive result (A : Type) : Type :=
| Ok (a : A)
| Raise (e : exn).
Arguments Ok {A} a.
Arguments Raise {A} e.

(** ** Tensors and arrays

    A tensor is its shape and its entries in row-major order, the layout of
    a contiguous torch tensor, and the device it lives on. *)

Inductive device : Type := Cpu | Cuda.

Record tensor : Type := Tensor {
  shape : list nat;
  data : list Q;
  tdev : device
}.

(** A numpy array: host resident, shape and row-major entries. *)
Record ndarray : Type := NdArray {
  nshape : list nat;
  ndata : list Q
}.

Definition numel (s : list nat) : nat := foldr Nat.mul 1%nat s.

Definition wf_tensor (t : tensor) : Prop := length (data t) = numel (shape t).

(** [torch.ones(b, d)] and [torch.zeros_like(t)]. *)
Definition torch_ones (size : list nat) : tensor :=
  Tensor size (replicate (numel size) 1%Q) Cpu.

Definition torch_zeros_like (t : tensor) : tensor :=
  Tensor (shape t) (replicate (length (data t)) 0%Q) (tdev t).

(** [torch.tensor([...])] of a flat list of numbers. *)
Definition torch_tensor (xs : list Q) : tensor :=
  Tensor [length xs] xs Cpu.

(** [torch.linspace(start, end, steps)]: [steps] evenly spaced points, the
    first one [start]. *)
Definition torch_linspace (start stop : Q) (steps : nat) : tensor :=
  Tensor [steps]
         (map (fun i : nat =>
                 start + inject_Z (Z.of_nat i) * (stop - start)
                         / inject_Z (Z.of_nat (steps - 1)))%Q
              (seq 0 steps))
         Cpu.

(** [t.to(device)]. *)
Definition tensor_to (dev : device) (t : tensor) : tensor :=
  Tensor (shape t) (data t) dev.

(** [t.squeeze()]: every dimension of size one is dropped. *)
Definition squeeze (t : tensor) : tensor :=
  Tensor (filter (fun n : nat => n ≠ 1%nat) (shape t)) (data t) (tdev t).

(** Entries of the transpose of an [r] by [c] row-major matrix. *)
Definition transpose_data (r c : nat) (xs : list Q) : list Q :=
  flat_map (fun j : nat => map (fun i : nat => nth (i * c + j) xs 0%Q) (seq 0 r))
           (seq 0 c).

(** [t.t()]: tensors of rank 0 and 1 are returned as they are, a matrix is
    transposed, and a higher rank is an error. *)
Definition tensor_t (t : tensor) : result tensor :=
  match shape t with
  | [] | [_] => Ok t
  | [r; c] => Ok (Tensor [c; r] (transpose_data r c (data t)) (tdev t))
  | _ =>
    Raise (RuntimeError "t() expects a tensor with <= 2 dimensions")
  end.

(** The [i]-th slice along the first dimension of row-major entries whose
    remaining dimensions are [rest]. *)
Definition slice (rest : list nat) (xs : list Q) (i : nat) : list Q :=
  take (numel rest) (drop (i * numel rest) xs).

(** [t[i]]. *)
Definition tensor_index (t : tensor) (i : nat) : result tensor :=
  match shape t with
  | [] => Raise (IndexError "invalid index of a 0-dim tensor")
  | n :: rest =>
    if decide (i < n)%nat
    then Ok (Tensor rest (slice rest (data t) i) (tdev t))
    else Raise (IndexError "index out of range")
  end.

(** Iterating a tensor yields its slices along the first dimension. *)
Definition tensor_iter (t : tensor) : result (list tensor) :=
  match shape t with
  | [] => Raise (TypeError "iteration over a 0-d tensor")
  | n :: rest =>
    Ok (map (fun i : nat => Tensor rest (slice rest (data t) i) (tdev t)) (seq 0 n))
  end.

(** [a, b = t]: the iteration must yield exactly two values. *)
Definition unpack2 (t : tensor) : result (tensor * tensor) :=
  match tensor_iter t with
  | Raise e => Raise e
  | Ok [a; b] => Ok (a, b)
  | Ok (_ :: _ :: _ :: _) => Raise (ValueError "too many values to unpack (expected 2)")
  | Ok _ => Raise (ValueError "not enough values to unpack (expected 2)")
  end.

(** Iterating a numpy array, as [zip] does. *)
Definition ndarray_iter (a : ndarray) : result (list ndarray) :=
  match nshape a with
  | [] => Raise (TypeError "iteration over a 0-d array")
  | n :: rest =>
    Ok (map (fun i : nat => NdArray rest (slice rest (ndata a) i)) (seq 0 n))
  end.

(** ** The helpers of [diagnostics/utils.py] *)

Definition Qsum (xs : list Q) : Q := foldr Qplus 0%Q xs.

Definition Qmean (xs : list Q) : Q :=
  (Qsum xs / inject_Z (Z.of_nat (length xs)))%Q.

Definition sq_diff (a b : Q) : Q := ((a - b) * (a - b))%Q.

(** Modelled from the spec: [compute_mse] of [diagnostics/utils.py], which is
    not among the sources.  Given two batches of identical shape it returns a
    single scalar, the arithmetic mean over every entry of the squared
    elementwise difference; for mismatched shapes it fails. *)
Definition compute_mse (x y : tensor) : result tensor :=
  if decide (shape x = shape y)
  then Ok (Tensor [] [Qmean (zip_with sq_diff (data x) (data y))] (tdev x))
  else Raise (RuntimeError "compute_mse: shape mismatch").

(** Modelled from the spec: [to_numpy] of [diagnostics/utils.py], which is
    not among the sources.  It returns a host-resident array with the shape
    and the values of its argument. *)
Definition to_numpy (t : tensor) : ndarray := NdArray (shape t) (data t).

(** ** Python built-ins used by the module *)

(** [range(a, b)]. *)
Definition py_range (a b : nat) : list nat := seq a (b - a).

(** [f'{i}'] for a non-negative integer. *)
Definition py_str (i : nat) : string := NilZero.string_of_uint (Nat.to_uint i).

(** [os.path.join] on relative components (POSIX). *)
Definition os_path_join (parts : list string) : string :=
  match parts with
  | [] => ""
  | p :: ps => foldl (fun acc q : string => acc +:+ "/" +:+ q) p ps
  end.

(** The step-size series of [inspect_strong_order]:
    [tuple(2 ** -i for i in range(1, 9))]. *)
Definition dts : list Q :=
  map (fun i : nat => Qpower 2 (- Z.of_nat i)) (py_range 1 9).

(** ** Values of numpy's floating-point functions

    [np.log] leaves the finite numbers at zero and below, so its values are
    reals extended with the infinities and NaN. *)

Inductive xfloat : Type :=
| Fin (r : R)
| PInf
| NInf
| NaN.

(** [np.log] on one number: the natural logarithm of a positive number,
    minus infinity at zero and NaN below zero. *)
Definition np_log (q : Q) : xfloat :=
  match (q ?= 0)%Q with
  | Gt => Fin (ln (Q2R q))
  | Eq => NInf
  | Lt => NaN
  end.

(** [v / 2]. *)
Definition xhalve (v : xfloat) : xfloat :=
  match v with
  | Fin r => Fin (r / 2)%R
  | other => other
  end.

(** Arithmetic on extended values, after IEEE 754 (signed zeros apart). *)
Definition Rsgn (r : R) : comparison :=
  match total_order_T r 0 with
  | inleft (left _) => Lt
  | inleft (right _) => Eq
  | inright _ => Gt
  end.

Definition xinf (s : comparison) : xfloat :=
  match s with Gt => PInf | Lt => NInf | Eq => NaN end.

Definition xopp (a : xfloat) : xfloat :=
  match a with
  | Fin r => Fin (- r)%R
  | PInf => NInf
  | NInf => PInf
  | NaN => NaN
  end.

Definition xadd (a b : xfloat) : xfloat :=
  match a, b with
  | NaN, _ | _, NaN => NaN
  | Fin x, Fin y => Fin (x + y)%R
  | PInf, NInf | NInf, PInf => NaN
  | PInf, _ | _, PInf => PInf
  | NInf, _ | _, NInf => NInf
  end.

Definition xsub (a b : xfloat) : xfloat := xadd a (xopp b).

Definition xmul (a b : xfloat) : xfloat :=
  match a, b with
  | NaN, _ | _, NaN => NaN
  | Fin x, Fin y => Fin (x * y)%R
  | Fin x, PInf | PInf, Fin x => xinf (Rsgn x)
  | Fin x, NInf | NInf, Fin x => xinf (CompOpp (Rsgn x))
  | PInf, PInf | NInf, NInf => PInf
  | PInf, NInf | NInf, PInf => NInf
  end.

Definition xdiv (a b : xfloat) : xfloat :=
  match a, b with
  | NaN, _ | _, NaN => NaN
  | Fin x, Fin y =>
    match Rsgn y with
    | Eq => xinf (Rsgn x)
    | _ => Fin (x / y)%R
    end
  | Fin _, _ => Fin 0%R
  | PInf, Fin y => match Rsgn y with Lt => NInf | _ => PInf end
  | NInf, Fin y => match Rsgn y with Lt => PInf | _ => NInf end
  | _, _ => NaN
  end.

Definition xsum (xs : list xfloat) : xfloat := foldr xadd (Fin 0%R) xs.

Definition xmean (xs : list xfloat) : xfloat :=
  xdiv (xsum xs) (Fin (INR (length xs))).

(** [np.array(x)] for a tuple of Python floats and for a list of arrays. *)
Definition np_array_floats (xs : list Q) : ndarray := NdArray [length xs] xs.

Definition np_array (xs : list ndarray) : ndarray :=
  NdArray (length xs :: match xs with [] => [] | a :: _ => nshape a end)
          (flat_map ndata xs).

(** [log = lambda x: np.log(np.array(x))], elementwise. *)
Definition log (a : ndarray) : list xfloat := map np_log (ndata a).

(** ** The world the module runs in *)

(** Modelled from the spec: the problem [Ex2] of [tests/problems.py], which
    is not among the sources, is represented by its constructor argument and
    its device. *)
Inductive sde : Type := Ex2 (d : nat) (dev : device).

Definition sde_to (dev : device) (s : sde) : sde :=
  match s with Ex2 d _ => Ex2 d dev end.

(** The [options] keyword of [sdeint]: absent, or a dictionary. *)
Definition options : Type := option (list (string * bool)).

(** Curve labels: a literal, or [f'name(k={slope:.4f})']. *)
Inductive plot_label : Type :=
| Label (s : string)
| FitLabel (s : string) (k : xfloat).

(** Every call that leaves the module, with its arguments and, for the
    numerical services, the value it returned.  Brownian paths are named by
    their reference in the object store. *)
Inductive event : Type :=
| EvSetDefaultDtype (dtype : string)
| EvManualSeed (seed : nat)
| EvBrownianPath (ref : nat) (t0 w0 : tensor)
| EvSdeint (s : sde) (y0 ts : tensor) (dt : Q) (bm : nat) (method : string)
           (opts : options) (ret : result tensor)
| EvAnalyticalSample (s : sde) (y0 ts : tensor) (bm : nat) (ret : result tensor)
| EvLinregress (xs ys : list xfloat)
| EvMakedirs (path : string)
| EvFigure
| EvPlot (xs ys : ndarray) (label : plot_label)
| EvXscale (s : string)
| EvYscale (s : string)
| EvLegend
| EvSavefig (path : string)
| EvClose.

(** What a global name of the module can be bound to. *)
Inductive pyval : Type :=
| VModule (name : string)
| VFunction (name : string)
| VDevice (dev : device).

Section Experiments.

(** The state of a Brownian-path object is the noise service's own. *)
Context {BM : Type}.

Record world : Type := World {
  globals : gmap string pyval;
  store : gmap nat BM;
  next_ref : nat;
  trace : list event
}.

(** *** The state-and-exception monad *)

Definition M (A : Type) : Type := world -> result A * world.

Definition ret {A} (a : A) : M A := fun w => (Ok a, w).

Definition raise {A} (e : exn) : M A := fun w => (Raise e, w).

Definition bind {A B} (c : M A) (k : A -> M B) : M B :=
  fun w =>
    match c w with
    | (Ok a, w') => k a w'
    | (Raise e, w') => (Raise e, w')
    end.

Definition lift {A} (r : result A) : M A := fun w => (r, w).

Definition emit (e : event) : M unit :=
  fun w => (Ok tt, World (globals w) (store w) (next_ref w) (trace w ++ [e])).

Notation "x <- c ;; k" := (bind c (fun x => k))
  (at level 100, c at level 99, right associativity, only parsing).
Notation "c ;;; k" := (bind c (fun _ => k))
  (at level 100, right associativity, only parsing).

(** Reading the global name [device]. *)
Definition read_device : M device :=
  fun w =>
    match globals w !! "device" with
    | None => (Raise (NameError "device"), w)
    | Some (VDevice dev) => (Ok dev, w)
    | Some _ => (Raise (TypeError "to() received an invalid argument"), w)
    end.

Definition set_global (name : string) (v : pyval) : M unit :=
  fun w => (Ok tt, World (<[name := v]> (globals w)) (store w) (next_ref w) (trace w)).

(** *** The services *)

Variable cuda_is_available : bool.
Variable BrownianPath_init : tensor -> tensor -> BM.
Variable sdeint_impl :
  sde -> tensor -> tensor -> Q -> string -> options -> BM -> result tensor * BM.
Variable analytical_sample_impl :
  sde -> tensor -> tensor -> BM -> result tensor * BM.
Variable linregress_impl :
  list xfloat -> list xfloat -> result (xfloat * xfloat * xfloat * xfloat * xfloat).

(** [BrownianPath(t0=t0, w0=w0)]: a new object enters the store; the
    program holds its reference. *)
Definition BrownianPath (t0 w0 : tensor) : M nat :=
  fun w =>
    let r := next_ref w in
    (Ok r, World (globals w) (<[r := BrownianPath_init t0 w0]> (store w)) (S r)
                 (trace w ++ [EvBrownianPath r t0 w0])).

(** [sdeint(sde, y0=, ts=, dt=, bm=, method=, options=)]: the integrator
    works on the object the reference [bm] points to and may update it. *)
Definition sdeint (s : sde) (y0 ts : tensor) (dt : Q) (bm : nat)
           (method : string) (opts : options) : M tensor :=
  fun w =>
    match store w !! bm with
    | None => (Raise (RuntimeError "dangling reference"), w)
    | Some b =>
      let '(r, b') := sdeint_impl s y0 ts dt method opts b in
      (r, World (globals w) (<[bm := b']> (store w)) (next_ref w)
                (trace w ++ [EvSdeint s y0 ts dt bm method opts r]))
    end.

(** [sde.analytical_sample(y0=, ts=, bm=)]. *)
Definition analytical_sample (s : sde) (y0 ts : tensor) (bm : nat) : M tensor :=
  fun w =>
    match store w !! bm with
    | None => (Raise (RuntimeError "dangling reference"), w)
    | Some b =>
      let '(r, b') := analytical_sample_impl s y0 ts b in
      (r, World (globals w) (<[bm := b']> (store w)) (next_ref w)
                (trace w ++ [EvAnalyticalSample s y0 ts bm r]))
    end.

(** [stats.linregress(x, y)]. *)
Definition linregress (xs ys : list xfloat)
  : M (xfloat * xfloat * xfloat * xfloat * xfloat) :=
  emit (EvLinregress xs ys) ;;; lift (linregress_impl xs ys).

(** matplotlib.  [plt.plot(x, y)] refuses arguments whose first dimensions
    differ, a scalar counting as one point. *)
Definition first_dim (a : ndarray) : nat :=
  match nshape a with [] => 1%nat | n :: _ => n end.

Definition plt_plot (xs ys : ndarray) (label : plot_label) : M unit :=
  if decide (first_dim xs = first_dim ys)
  then emit (EvPlot xs ys label)
  else raise (ValueError "x and y must have same first dimension").

Definition plt_figure : M unit := emit EvFigure.
Definition plt_legend : M unit := emit EvLegend.
Definition plt_xscale (s : string) : M unit := emit (EvXscale s).
Definition plt_yscale (s : string) : M unit := emit (EvYscale s).
Definition plt_savefig (path : string) : M unit := emit (EvSavefig path).
Definition plt_close : M unit := emit EvClose.

(** Modelled from the spec: [makedirs_if_not_found] of
    [diagnostics/utils.py], which is not among the sources, creates the
    directory when it is absent; it is one recorded effect. *)
Definition makedirs_if_not_found (path : string) : M unit := emit (EvMakedirs path).

(** A [for] loop over a list, threading the loop-carried variables. *)
Fixpoint for_each {A S} (xs : list A) (body : A -> S -> M S) (s : S) : M S :=
  match xs with
  | [] => ret s
  | x :: rest => s' <- body x s ;; for_each rest body s'
  end.

(** [enumerate(zip(a, b, c, d))]: [zip] stops at the shortest argument. *)
Fixpoint zip4 {A} (a b c d : list A) : list (A * A * A * A) :=
  match a, b, c, d with
  | x :: a', y :: b', z :: c', u :: d' => (x, y, z, u) :: zip4 a' b' c' d'
  | _, _, _, _ => []
  end.

Definition enumerate {A} (xs : list A) : list (nat * A) :=
  zip_with pair (seq 0 (length xs)) xs.

Definition img_dir : string :=
  os_path_join ["."; "diagnostics"; "plots"; "srk_diagonal"].

(** *** [inspect_sample]

    The source fixes [batch_size, d = 32, 1] and [steps = 100] in its first
    two lines; they are arguments here so that statements can range over
    them, and [inspect_sample] below is the function at the source's
    values. *)

(** The body of the plotting loop. *)
Definition plot_sample (ts_ : ndarray)
           (it : nat * (ndarray * ndarray * ndarray * ndarray)) (_ : unit) : M unit :=
  let '(i, (ys_euler_i, ys_milstein_i, ys_srk_i, ys_analytical_i)) := it in
  plt_figure ;;;
  plt_plot ts_ ys_euler_i (Label "euler") ;;;
  plt_plot ts_ ys_milstein_i (Label "milstein") ;;;
  plt_plot ts_ ys_srk_i (Label "srk") ;;;
  plt_plot ts_ ys_analytical_i (Label "analytical") ;;;
  plt_legend ;;;
  plt_savefig (os_path_join [img_dir; py_str i]) ;;;
  plt_close.

Definition inspect_sample_at (batch_size d steps : nat) : M unit :=
  device <- read_device ;;
  let ts := tensor_to device (torch_linspace 0 5 steps) in
  t0 <- lift (tensor_index ts 0) ;;
  let dt := (1 # 10)%Q in
  device <- read_device ;;
  let y0 := tensor_to device (torch_ones [batch_size; d]) in
  device <- read_device ;;
  let sde := sde_to device (Ex2 d Cpu) in

  bm <- BrownianPath t0 (torch_zeros_like y0) ;;
  ys_euler <- sdeint sde y0 ts dt bm "euler" None ;;
  ys_milstein <- sdeint sde y0 ts dt bm "milstein" None ;;
  ys_srk <- sdeint sde y0 ts dt bm "srk" (Some [("trapezoidal_approx", false)]) ;;
  ys_analytical <- analytical_sample sde y0 ts bm ;;

  ys_euler <- lift (tensor_t (squeeze ys_euler)) ;;
  ys_milstein <- lift (tensor_t (squeeze ys_milstein)) ;;
  ys_srk <- lift (tensor_t (squeeze ys_srk)) ;;
  ys_analytical <- lift (tensor_t (squeeze ys_analytical)) ;;

  let ts_ := to_numpy ts in
  let ys_euler_ := to_numpy ys_euler in
  let ys_milstein_ := to_numpy ys_milstein in
  let ys_srk_ := to_numpy ys_srk in
  let ys_analytical_ := to_numpy ys_analytical in

  makedirs_if_not_found img_dir ;;;

  it_euler <- lift (ndarray_iter ys_euler_) ;;
  it_milstein <- lift (ndarray_iter ys_milstein_) ;;
  it_srk <- lift (ndarray_iter ys_srk_) ;;
  it_analytical <- lift (ndarray_iter ys_analytical_) ;;
  for_each (enumerate (zip4 it_euler it_milstein it_srk it_analytical))
           (plot_sample ts_) tt.

Definition inspect_sample : M unit := inspect_sample_at 32 1 100.

(** *** [inspect_strong_order]

    As above, [batch_size, d = 4096, 10] of the source are arguments of
    [inspect_strong_order_at].  [tqdm.tqdm(dts)] iterates over [dts] and
    only draws a progress bar; [torch.no_grad()] switches gradient tracking
    off and changes no value. *)

(** The variables the loop over the step sizes carries: the three error
    lists, and the last values bound to [euler_mse_], [milstein_mse_] and
    [srk_mse_] when the body has run. *)
Record loop_vars : Type := LoopVars {
  euler_mses_ : list ndarray;
  milstein_mses_ : list ndarray;
  srk_mses_ : list ndarray;
  last_mse_ : option (ndarray * ndarray * ndarray)
}.

(** The loop body for one step size. *)
Definition strong_order_step (sde : sde) (y0 ts : tensor) (bm : nat)
           (dt : Q) (v : loop_vars) : M loop_vars :=
  r <- sdeint sde y0 ts dt bm "euler" None ;;
  p <- lift (unpack2 r) ;;
  let ys_euler := snd p in
  r <- sdeint sde y0 ts dt bm "milstein" None ;;
  p <- lift (unpack2 r) ;;
  let ys_milstein := snd p in
  r <- sdeint sde y0 ts dt bm "srk" (Some [("trapezoidal_approx", false)]) ;;
  p <- lift (unpack2 r) ;;
  let ys_srk := snd p in
  r <- analytical_sample sde y0 ts bm ;;
  p <- lift (unpack2 r) ;;
  let ys_analytical := snd p in

  euler_mse <- lift (compute_mse ys_euler ys_analytical) ;;
  milstein_mse <- lift (compute_mse ys_milstein ys_analytical) ;;
  srk_mse <- lift (compute_mse ys_srk ys_analytical) ;;

  let euler_mse_ := to_numpy euler_mse in
  let milstein_mse_ := to_numpy milstein_mse in
  let srk_mse_ := to_numpy srk_mse in

  ret (LoopVars (euler_mses_ v ++ [euler_mse_])
                (milstein_mses_ v ++ [milstein_mse_])
                (srk_mses_ v ++ [srk_mse_])
                (Some (euler_mse_, milstein_mse_, srk_mse_))).

(** [del euler_mse_, milstein_mse_, srk_mse_] after the loop. *)
Definition del_last (v : loop_vars) : M unit :=
  match last_mse_ v with
  | Some _ => ret tt
  | None => raise (UnboundLocalError "euler_mse_")
  end.

(** [slope, _, _, _, _ = stats.linregress(x, y)]. *)
Definition slope_of (r : xfloat * xfloat * xfloat * xfloat * xfloat) : xfloat :=
  let '(slope, _, _, _, _) := r in slope.

Definition inspect_strong_order_at (batch_size d : nat) : M unit :=
  device <- read_device ;;
  let ts := tensor_to device (torch_tensor [0; 5]%Q) in
  p <- lift (unpack2 ts) ;;
  let t0 := fst p in
  let dts := dts in
  device <- read_device ;;
  let y0 := tensor_to device (torch_ones [batch_size; d]) in
  device <- read_device ;;
  let sde := sde_to device (Ex2 d Cpu) in

  bm <- BrownianPath t0 (torch_zeros_like y0) ;;
  v <- for_each dts (strong_order_step sde y0 ts bm) (LoopVars [] [] [] None) ;;
  del_last v ;;;

  r <- linregress (log (np_array_floats dts))
                  (map xhalve (log (np_array (euler_mses_ v)))) ;;
  let euler_slope := slope_of r in
  r <- linregress (log (np_array_floats dts))
                  (map xhalve (log (np_array (milstein_mses_ v)))) ;;
  let milstein_slope := slope_of r in
  r <- linregress (log (np_array_floats dts))
                  (map xhalve (log (np_array (srk_mses_ v)))) ;;
  let srk_slope := slope_of r in

  plt_figure ;;;
  plt_plot (np_array_floats dts) (np_array (euler_mses_ v))
           (FitLabel "euler" euler_slope) ;;;
  plt_plot (np_array_floats dts) (np_array (milstein_mses_ v))
           (FitLabel "milstein" milstein_slope) ;;;
  plt_plot (np_array_floats dts) (np_array (srk_mses_ v))
           (FitLabel "srk" srk_slope) ;;;
  plt_xscale "log" ;;;
  plt_yscale "log" ;;;
  plt_legend ;;;

  makedirs_if_not_found img_dir ;;;
  plt_savefig (os_path_join [img_dir; "rate"]) ;;;
  plt_close.

Definition inspect_strong_order : M unit := inspect_strong_order_at 4096 10.

(** *** The module's top level

    Executing the module binds the imported names and the two functions;
    the block under [if __name__ == '__main__'] binds [device], fixes the
    default dtype and the seed, and runs the two experiments. *)

Definition module_names : list (string * pyval) :=
  [("os", VModule "os"); ("plt", VModule "matplotlib.pyplot");
   ("np", VModule "numpy"); ("torch", VModule "torch");
   ("tqdm", VModule "tqdm"); ("stats", VModule "scipy.stats");
   ("Ex2", VFunction "tests.problems.Ex2");
   ("sdeint", VFunction "torchsde.sdeint");
   ("BrownianPath", VFunction "torchsde.BrownianPath");
   ("to_numpy", VFunction "diagnostics.utils.to_numpy");
   ("makedirs_if_not_found", VFunction "diagnostics.utils.makedirs_if_not_found");
   ("compute_mse", VFunction "diagnostics.utils.compute_mse");
   ("inspect_sample", VFunction "inspect_sample");
   ("inspect_strong_order", VFunction "inspect_strong_order")].

Definition torch_device : device := if cuda_is_available then Cuda else Cpu.

Definition run_module (dunder_name : string) : M unit :=
  for_each module_names (fun b _ => set_global (fst b) (snd b)) tt ;;;
  if String.eqb dunder_name "__main__" then
    set_global "device" (VDevice torch_device) ;;;
    emit (EvSetDefaultDtype "float64") ;;;
    emit (EvManualSeed 0) ;;;
    inspect_sample ;;;
    inspect_strong_order
  else ret tt.

End Experiments.

Arguments World {BM} _ _ _ _.

(** ** Reference services for concrete runs *)

Definition method_bias (method : string) : Q :=
  if String.eqb method "euler" then 3%Q
  else if String.eqb method "milstein" then 2%Q
  else 1%Q.

Definition ref_trajectory (y0 ts : tensor) (drift : Q) : tensor :=
  Tensor (length (data ts) :: shape y0)
         (flat_map (fun k : nat =>
                      map (fun y => y + inject_Z (Z.of_nat k) * drift)%Q (data y0))
                   (seq 0 (length (data ts))))
         (tdev y0).

Definition ref_sdeint (s : sde) (y0 ts : tensor) (dt : Q) (method : string)
           (opts : options) (b : nat) : result tensor * nat :=
  (Ok (ref_trajectory y0 ts (dt * method_bias method)%Q), S b).

Definition ref_analytical (s : sde) (y0 ts : tensor) (b : nat) : result tensor * nat :=
  (Ok (ref_trajectory y0 ts 0%Q), S b).

(** The world in which the main block calls the experiments: [device] is
    bound, no object has been created and nothing has happened yet. *)
Definition main_world : @world nat :=
  World {["device" := VDevice Cpu]} ∅ 0 [].

(** The least-squares line through the points [(x_i, y_i)], by the formulas
    [scipy.stats.linregress] computes with: the slope is the covariance of
    [x] and [y] over the variance of [x], the intercept follows from the
    means.  The three fit statistics, which the program discards, are not
    modelled. *)
Definition ols_slope (xs ys : list xfloat) : xfloat :=
  let xmean_ := xmean xs in
  let ymean_ := xmean ys in
  let ssxm := xmean (map (fun x => xmul (xsub x xmean_) (xsub x xmean_)) xs) in
  let ssxym := xmean (zip_with (fun x y => xmul (xsub x xmean_) (xsub y ymean_)) xs ys) in
  xdiv ssxym ssxm.

Definition ols_intercept (xs ys : list xfloat) : xfloat :=
  xsub (xmean ys) (xmul (ols_slope xs ys) (xmean xs)).

Definition ols_linregress (xs ys : list xfloat)
  : result (xfloat * xfloat * xfloat * xfloat * xfloat) :=
  Ok (ols_slope xs ys, ols_intercept xs ys, NaN, NaN, NaN).


(** ** Predicates used in the statements *)

(** Later elements are strictly smaller than earlier ones. *)
Definition strictly_decreasing (l : list Q) : Prop :=
  forall (i j : nat) (x y : Q),
    l !! i = Some x -> l !! j = Some y -> (i < j)%nat -> (y < x)%Q.

(** The entry at batch index [i] and dimension [j] of a batch whose second
    dimension is [d]. *)
Definition entry (d : nat) (t : tensor) (i j : nat) : Q :=
  nth (i * d + j) (data t) 0%Q.

(** The sum over batch index and dimension of the squared difference of
    two batches of shape ([b], [d]). *)
Definition sum_sq_diff (b d : nat) (x y : tensor) : Q :=
  Qsum (map (fun i : nat =>
               Qsum (map (fun j : nat => sq_diff (entry d x i j) (entry d y i j))
                         (seq 0 d)))
            (seq 0 b)).

(** Two batches of shape (2, 2) for concrete checks. *)
Definition batch_a : tensor := Tensor [2; 2]%nat [1; 2; 3; 4]%Q Cpu.
Definition batch_b : tensor := Tensor [2; 2]%nat [1; 0; 5; 4]%Q Cpu.

(** What an [sdeint] call passes as [options], by scheme. *)
Definition srk_options : options := Some [("trapezoidal_approx", false)].

Definition sdeint_options_ok (e : event) : Prop :=
  match e with
  | EvSdeint _ _ _ _ _ method opts _ =>
    (method = "srk" /\ opts = srk_options) \/
    ((method = "euler" \/ method = "milstein") /\ opts = None)
  | _ => True
  end.

(** An event that creates no Brownian path and, when it is a call to a
    numerical service, passes the reference [r]. *)
Definition uses_bm (r : nat) (e : event) : Prop :=
  match e with
  | EvBrownianPath _ _ _ => False
  | EvSdeint _ _ _ _ bm _ _ _ => bm = r
  | EvAnalyticalSample _ _ _ bm _ => bm = r
  | _ => True
  end.

(** The files a trace saves, in order. *)
Definition saved_files (tr : list event) : list string :=
  flat_map (fun e => match e with EvSavefig path => [path] | _ => [] end) tr.

(** One pass of the loop of [inspect_strong_order]: its step size, what the
    four services returned, and the three errors it appended. *)
Record step_obs : Type := StepObs {
  obs_dt : Q;
  obs_euler : tensor;
  obs_milstein : tensor;
  obs_srk : tensor;
  obs_analytical : tensor;
  err_euler : Q;
  err_milstein : Q;
  err_srk : Q
}.

(** The four calls of one pass. *)
Definition step_events (s : sde) (y0 ts : tensor) (bm : nat) (o : step_obs)
  : list event :=
  [EvSdeint s y0 ts (obs_dt o) bm "euler" None (Ok (obs_euler o));
   EvSdeint s y0 ts (obs_dt o) bm "milstein" None (Ok (obs_milstein o));
   EvSdeint s y0 ts (obs_dt o) bm "srk" srk_options (Ok (obs_srk o));
   EvAnalyticalSample s y0 ts bm (Ok (obs_analytical o))].

(** The terminal value of a trajectory: its second element along the
    first dimension. *)
Definition terminal (r : tensor) : tensor :=
  Tensor (tail (shape r)) (slice (tail (shape r)) (data r) 1) (tdev r).

(** A zero-dimensional array holding one number. *)
Definition np_scalar (q : Q) : ndarray := NdArray [] [q].

(** [q] is the error of the trajectory [r] against the trajectory [a],
    measured on the terminal values. *)
Definition terminal_mse (r a : tensor) (q : Q) : Prop :=
  exists m : tensor,
    compute_mse (terminal r) (terminal a) = Ok m /\
    to_numpy m = np_scalar q.

(** A trajectory over a two-point grid. *)
Definition two_point (r : tensor) : Prop :=
  exists rest : list nat, shape r = 2%nat :: rest.

(** In a pass, every trajectory is over a two-point grid and each error is
    the metric on the terminal values of a scheme and of the analytical
    sample. *)
Definition obs_consistent (o : step_obs) : Prop :=
  two_point (obs_euler o) /\ two_point (obs_milstein o) /\
  two_point (obs_srk o) /\ two_point (obs_analytical o) /\
  terminal_mse (obs_euler o) (obs_analytical o) (err_euler o) /\
  terminal_mse (obs_milstein o) (obs_analytical o) (err_milstein o) /\
  terminal_mse (obs_srk o) (obs_analytical o) (err_srk o).

(** The arguments of the regression: the logarithms of the step sizes, and
    half the logarithms of the errors. *)
Definition fit_xs (steps : list Q) : list xfloat :=
  map np_log steps.

Definition fit_ys (errs : list Q) : list xfloat :=
  map (fun e => xhalve (np_log e)) errs.

(** The events of [inspect_strong_order] after its loop, for the three
    error series and the three regression results. *)
Definition report_events (ee em es : list Q)
           (re rm rs : xfloat * xfloat * xfloat * xfloat * xfloat) : list event :=
  [EvLinregress (fit_xs dts) (fit_ys ee);
   EvLinregress (fit_xs dts) (fit_ys em);
   EvLinregress (fit_xs dts) (fit_ys es);
   EvFigure;
   EvPlot (np_array_floats dts) (np_array_floats ee) (FitLabel "euler" (slope_of re));
   EvPlot (np_array_floats dts) (np_array_floats em) (FitLabel "milstein" (slope_of rm));
   EvPlot (np_array_floats dts) (np_array_floats es) (FitLabel "srk" (slope_of rs));
   EvXscale "log"; EvYscale "log"; EvLegend;
   EvMakedirs img_dir;
   EvSavefig (os_path_join [img_dir; "rate"]);
   EvClose].

(** Every numerical service call of the trace returned a well-formed
    trajectory of shape [s]. *)
Definition returns_shape (s : list nat) (e : event) : bool :=
  match e with
  | EvSdeint _ _ _ _ _ _ _ (Ok t) | EvAnalyticalSample _ _ _ _ (Ok t) =>
    bool_decide (shape t = s) && bool_decide (length (data t) = numel s)
  | EvSdeint _ _ _ _ _ _ _ (Raise _) | EvAnalyticalSample _ _ _ _ (Raise _) => false
  | _ => true
  end.

(** The events of one pass of the plotting loop of [inspect_sample]. *)
Definition plot_events (ts_ : ndarray) (i : nat) (e m s a : ndarray) : list event :=
  [EvFigure;
   EvPlot ts_ e (Label "euler");
   EvPlot ts_ m (Label "milstein");
   EvPlot ts_ s (Label "srk");
   EvPlot ts_ a (Label "analytical");
   EvLegend;
   EvSavefig (os_path_join [img_dir; py_str i]);
   EvClose].


(** [c] only appends to the trace, and every event it appends satisfies
    [P], whether [c] returns or raises. *)
Definition emits {BM A : Type} (P : event -> Prop) (c : @M BM A) : Prop :=
  forall w : world,
    exists tr : list event, trace (snd (c w)) = trace w ++ tr /\ Forall P tr.


(** Projections of a trace. *)

(** The step sizes of the integrator calls with a given scheme, in order. *)
Definition sdeint_dts (method : string) (tr : list event) : list Q :=
  flat_map (fun e => match e with
                     | EvSdeint _ _ _ dt _ m _ _ =>
                       if String.eqb m method then [dt] else []
                     | _ => []
                     end) tr.

(** The calls to the integrator and to the analytical sampler, in order. *)
Definition service_calls (tr : list event) : list event :=
  flat_map (fun e => match e with
                     | EvSdeint _ _ _ _ _ _ _ _ | EvAnalyticalSample _ _ _ _ _ => [e]
                     | _ => []
                     end) tr.

(** The time grids passed to the two numerical services, in order. *)
Definition service_grids (tr : list event) : list tensor :=
  flat_map (fun e => match e with
                     | EvSdeint _ _ ts _ _ _ _ _ | EvAnalyticalSample _ _ ts _ _ => [ts]
                     | _ => []
                     end) tr.

(** The curves drawn with a fitted label for the scheme [name]: the
    abscissas, the ordinates and the reported slope. *)
Definition fitted_curves (name : string) (tr : list event)
  : list (list Q * list Q * xfloat) :=
  flat_map (fun e => match e with
                     | EvPlot xs ys (FitLabel n k) =>
                       if String.eqb n name then [(ndata xs, ndata ys, k)] else []
                     | _ => []
                     end) tr.

(** The arguments of the regression calls, in order. *)
Definition regressions (tr : list event) : list (list xfloat * list xfloat) :=
  flat_map (fun e => match e with
                     | EvLinregress xs ys => [(xs, ys)]
                     | _ => []
                     end) tr.

(** The initial state, the two-point grid and the problem of
    [inspect_strong_order_at] on a device. *)
Definition so_y0 (dev : device) (batch_size d : nat) : tensor :=
  tensor_to dev (torch_ones [batch_size; d]).

Definition so_ts (dev : device) : tensor :=
  tensor_to dev (torch_tensor [0; 5]%Q).


(** Concrete runs of the convergence-order experiment from [main_world]:
    with schemes whose error grows with the step size, and with schemes
    that make no error at all. *)
Definition ref_bm_init (t0 w0 : tensor) : nat := 0%nat.

Definition ref_run (batch_size d : nat) : result unit * @world nat :=
  inspect_strong_order_at ref_bm_init ref_sdeint ref_analytical ols_linregress
                          batch_size d main_world.



(** The [i]-th row that [inspect_sample] plots for the trajectory [t],
    once [t] is squeezed to ([steps], [n]) and transposed. *)
Definition sample_row (steps n : nat) (t : tensor) (i : nat) : ndarray :=
  NdArray [steps] (slice [steps] (transpose_data steps n (data t)) i).

(** The file [inspect_sample] saves for the index [i]. *)
Definition sample_file (i : nat) : string := os_path_join [img_dir; py_str i].

(** The run of [inspect_sample] with the reference services, at the
    source's values and at batch size 1. *)
Definition ref_sample_run (batch_size d steps : nat) : result unit * @world nat :=
  inspect_sample_at ref_bm_init ref_sdeint ref_analytical batch_size d steps
                    main_world.


(** The file [inspect_strong_order] saves. *)
Definition rate_file : string := os_path_join [img_dir; "rate"].

(** An event that saves no file. *)
Definition saves_nothing (e : event) : Prop :=
  match e with EvSavefig _ => False | _ => True end.

(** [c] only appends to the trace; what it appends saves the files [files]
    when [c] returns and no file when [c] raises. *)
Definition saves_on_return {BM A : Type} (files : list string) (c : @M BM A) : Prop :=
  forall w : world,
    exists tr : list event,
      trace (snd (c w)) = trace w ++ tr /\
      saved_files tr = match fst (c w) with Ok _ => files | Raise _ => [] end.

(** [c] only appends to the trace, and the files it saves are those of
    consecutive indices starting at [a]. *)
Definition saves_consecutive {BM A : Type} (a : nat) (c : @M BM A) : Prop :=
  forall w : world,
    exists (tr : list event) (k : nat),
      trace (snd (c w)) = trace w ++ tr /\
      saved_files tr = map sample_file (seq a k).



(** An event that creates no Brownian path and, when it is a call to a
    numerical service, passes the problem [s], the initial value [y0], the
    grid [ts], the reference [r] and, for the integrator, the step size
    [dt]. *)
Definition same_inputs (s : sde) (y0 ts : tensor) (dt : Q) (r : nat) (e : event)
  : Prop :=
  match e with
  | EvBrownianPath _ _ _ => False
  | EvSdeint s' y0' ts' dt' bm _ _ _ =>
    s' = s /\ y0' = y0 /\ ts' = ts /\ dt' = dt /\ bm = r
  | EvAnalyticalSample s' y0' ts' bm _ =>
    s' = s /\ y0' = y0 /\ ts' = ts /\ bm = r
  | _ => True
  end.

(** The initial state and the grid of [inspect_sample_at] on a device. *)
Definition sample_y0 (dev : device) (batch_size d : nat) : tensor :=
  tensor_to dev (torch_ones [batch_size; d]).

Definition sample_ts (dev : device) (steps : nat) : tensor :=
  tensor_to dev (torch_linspace 0 5 steps).


(** [c] rebinds no global name and creates no object. *)
Definition steady {BM A : Type} (c : @M BM A) : Prop :=
  forall w : world,
    globals (snd (c w)) = globals w /\ next_ref (snd (c w)) = next_ref w.

(** An event whose tensors and problem, when it is a call to a service,
    live on the device [dev]. *)
Definition sde_device (s : sde) : device := match s with Ex2 _ dev => dev end.

Definition on_device (dev : device) (e : event) : Prop :=
  match e with
  | EvBrownianPath _ t0 w0 => tdev t0 = dev /\ tdev w0 = dev
  | EvSdeint s y0 ts _ _ _ _ _ | EvAnalyticalSample s y0 ts _ _ =>
    sde_device s = dev /\ tdev y0 = dev /\ tdev ts = dev
  | _ => True
  end.

(** An event that creates no Brownian path and, when it is a call to a
    numerical service, passes the problem [s], the initial value [y0], the
    grid [ts] and the reference [r]. *)
Definition shares_inputs (s : sde) (y0 ts : tensor) (r : nat) (e : event) : Prop :=
  match e with
  | EvBrownianPath _ _ _ => False
  | EvSdeint s' y0' ts' _ bm _ _ _ | EvAnalyticalSample s' y0' ts' bm _ =>
    s' = s /\ y0' = y0 /\ ts' = ts /\ bm = r
  | _ => True
  end.


(** The sum of a list of reals. *)
Definition Rsum (xs : list R) : R := foldr Rplus 0%R xs.

(** The sum of the squared residuals of the line [y = k * x + c] at the
    points [(x_i, y_i)]: what an ordinary-least-squares fit minimises. *)
Definition sq_residuals (xs ys : list R) (k c : R) : R :=
  Rsum (zip_with (fun x y : R => (y - (k * x + c)) * (y - (k * x + c)))%R xs ys).


(** The entry at time index [k], batch index [i] and dimension [j] of a
    trajectory of shape (steps, [b], [d]), whose entries are laid out in
    row-major order. *)
Definition traj_entry (b d : nat) (t : tensor) (k i j : nat) : Q :=
  nth ((k * b + i) * d + j) (data t) 0%Q.

(** The path of dimension [j] of batch sample [i] in the trajectory [t]:
    its values at the [steps] grid points, in order. *)
Definition sample_path (steps b d : nat) (t : tensor) (i j : nat) : ndarray :=
  NdArray [steps] (map (fun k : nat => traj_entry b d t k i j) (seq 0 steps)).

(** The curve a figure of index [i] shows for the trajectory [t]: the path
    of batch sample [i] when there is one dimension, and the path of
    dimension [i] of the only sample when the batch size is 1. *)
Definition plotted_path (steps b d : nat) (t : tensor) (i : nat) : ndarray :=
  if decide (d = 1%nat)
  then sample_path steps b d t i 0
  else sample_path steps b d t 0 i.


(** * The step-size series *)

Lemma dts_unfold :
  dts = [1 # 2; 1 # 4; 1 # 8; 1 # 16; 1 # 32; 1 # 64; 1 # 128; 1 # 256]%Q.
Proof. reflexivity. Qed.

(** C8: the step-size series of the convergence-order experiment has eight
    elements, the [i]-th being 2 to the power -(i+1); all are positive and
    the series is strictly decreasing. *)
Theorem dts_geometric_decreasing :
  length dts = 8%nat /\
  (forall i : nat, (i < 8)%nat ->
     dts !! i = Some (Qpower 2 (- Z.of_nat (S i)))) /\
  Forall (fun x => 0 < x)%Q dts /\
  strictly_decreasing dts.
Proof.
  split; [reflexivity|]. split.
  - intros i Hi. do 8 (destruct i as [|i]; [reflexivity|]). lia.
  - rewrite dts_unfold. split.
    + repeat constructor.
    + intros i j x y Hi Hj Hlt.
      do 8 (destruct i as [|i];
            [ do 8 (destruct j as [|j]; [first [lia | (simpl in Hi, Hj; injection Hi as <-; injection Hj as <-; reflexivity)]|]);
              simpl in Hj; discriminate |]).
      simpl in Hi. discriminate.
Qed.

(** * The mean-squared-error metric *)

Section MseFacts.
Local Open Scope Q_scope.

Lemma Qsum_app (xs ys : list Q) : Qsum (xs ++ ys) == Qsum xs + Qsum ys.
Proof.
  induction xs as [|x xs IH]; simpl.
  - ring.
  - rewrite IH. ring.
Qed.

Lemma Qsum_nonneg (xs : list Q) : Forall (fun x => 0 <= x) xs -> 0 <= Qsum xs.
Proof.
  induction 1 as [|x xs Hx _ IH]; simpl.
  - apply Qle_refl.
  - replace 0 with (0 + 0) by reflexivity. apply Qplus_le_compat; assumption.
Qed.

Lemma Qsum_map_ext {A} (f g : A -> Q) (l : list A) :
  (forall a, In a l -> f a == g a) -> Qsum (map f l) == Qsum (map g l).
Proof.
  induction l as [|a l IH]; intros H; simpl.
  - reflexivity.
  - rewrite (H a (or_introl eq_refl)), IH; [reflexivity|].
    intros a' Ha'. apply H. right. exact Ha'.
Qed.

Lemma Qsum_zeros (xs : list Q) : Forall (fun x => x == 0) xs -> Qsum xs == 0.
Proof.
  induction 1 as [|x xs Hx _ IH]; simpl.
  - reflexivity.
  - rewrite Hx, IH. ring.
Qed.

Lemma sq_diff_nonneg (a b : Q) : 0 <= sq_diff a b.
Proof.
  unfold sq_diff.
  destruct (Qlt_le_dec (a - b) 0) as [Hneg|Hpos].
  - assert (E : (a - b) * (a - b) == (- (a - b)) * (- (a - b))) by ring.
    rewrite E.
    assert (H : 0 <= - (a - b))
      by (apply (Qopp_le_compat (a - b) 0), Qlt_le_weak, Hneg).
    apply Qmult_le_0_compat; exact H.
  - apply Qmult_le_0_compat; exact Hpos.
Qed.

Lemma sq_diff_sym (a b : Q) : sq_diff a b == sq_diff b a.
Proof. unfold sq_diff. ring. Qed.

Lemma sq_diff_diag (a : Q) : sq_diff a a == 0.
Proof. unfold sq_diff. ring. Qed.

Lemma zip_sq_diff_nonneg (xs ys : list Q) :
  Forall (fun x => 0 <= x) (zip_with sq_diff xs ys).
Proof.
  revert ys. induction xs as [|x xs IH]; intros [|y ys]; simpl; constructor.
  - apply sq_diff_nonneg.
  - apply IH.
Qed.

Lemma zip_sq_diff_diag (xs : list Q) :
  Forall (fun x => x == 0) (zip_with sq_diff xs xs).
Proof.
  induction xs as [|x xs IH]; simpl; constructor.
  - apply sq_diff_diag.
  - exact IH.
Qed.

Lemma Qsum_zip_sq_diff_sym (xs ys : list Q) :
  Qsum (zip_with sq_diff xs ys) == Qsum (zip_with sq_diff ys xs).
Proof.
  revert ys. induction xs as [|x xs IH]; intros [|y ys]; simpl; try reflexivity.
  rewrite IH, sq_diff_sym. reflexivity.
Qed.

Lemma length_zip_sq_diff (xs ys : list Q) :
  length xs = length ys -> length (zip_with sq_diff xs ys) = length xs.
Proof.
  revert ys. induction xs as [|x xs IH]; intros [|y ys] H; simpl in *;
    try discriminate; [reflexivity|].
  f_equal. apply IH. congruence.
Qed.

Lemma Qmean_nonneg (xs : list Q) :
  Forall (fun x => 0 <= x) xs -> 0 <= Qmean xs.
Proof.
  intros H. unfold Qmean, Qdiv.
  apply Qmult_le_0_compat; [apply Qsum_nonneg, H|].
  apply Qinv_le_0_compat.
  unfold Qle, inject_Z. simpl. lia.
Qed.

(** The sum of a list of [b * d] numbers, row by row. *)
Lemma Qsum_by_rows (d : nat) : forall (b : nat) (l : list Q),
  length l = (b * d)%nat ->
  Qsum l ==
  Qsum (map (fun i : nat =>
               Qsum (map (fun j : nat => nth (i * d + j) l 0) (seq 0 d)))
            (seq 0 b)).
Proof.
  induction b as [|b IH]; intros l Hl.
  - destruct l; [reflexivity | discriminate].
  - rewrite <- (firstn_skipn d l) at 1. rewrite Qsum_app.
    cbn [seq map Qsum]. apply Qplus_comp.
    + assert (Hd : (d <= length l)%nat) by lia.
      clear -Hd. revert l Hd.
      induction d as [|d IHd]; intros l Hd; [reflexivity|].
      destruct l as [|x l]; [simpl in Hd; lia|].
      cbn [firstn Qsum seq map]. cbn [Nat.mul Nat.add nth].
      apply Qplus_comp; [reflexivity|].
      rewrite <- seq_shift, map_map. cbn [Nat.mul Nat.add nth].
      apply IHd. simpl in Hd. lia.
    + rewrite (IH (skipn d l)) by (rewrite length_skipn; lia).
      rewrite <- seq_shift, map_map.
      apply Qsum_map_ext. intros i _.
      apply Qsum_map_ext. intros j _.
      rewrite nth_skipn. replace (d + (i * d + j))%nat with (S i * d + j)%nat by lia.
      reflexivity.
Qed.

Lemma nth_zip_sq_diff (xs ys : list Q) (k : nat) :
  (k < length xs)%nat -> (k < length ys)%nat ->
  nth k (zip_with sq_diff xs ys) 0 = sq_diff (nth k xs 0) (nth k ys 0).
Proof.
  revert ys k. induction xs as [|x xs IH]; intros [|y ys] [|k] Hx Hy;
    simpl in *; try lia; [reflexivity|].
  apply IH; lia.
Qed.

Lemma Qsum_zip_sq_diff_rows (b d : nat) (x y : tensor) :
  length (data x) = (b * d)%nat -> length (data y) = (b * d)%nat ->
  Qsum (zip_with sq_diff (data x) (data y)) == sum_sq_diff b d x y.
Proof.
  intros Hx Hy. unfold sum_sq_diff, entry.
  rewrite (Qsum_by_rows d b) by (rewrite length_zip_sq_diff; congruence).
  apply Qsum_map_ext. intros i Hi. apply in_seq in Hi.
  apply Qsum_map_ext. intros j Hj. apply in_seq in Hj.
  assert (i * d + j < b * d)%nat by nia.
  rewrite nth_zip_sq_diff by lia. reflexivity.
Qed.

End MseFacts.

(** C6: for two batches of the same shape ([b], [d]) the metric returns one
    scalar, the sum over every batch-and-dimension entry of the squared
    difference divided by the number of entries; it is non-negative, it is
    zero on identical arguments and it does not depend on the order of its
    arguments. *)
Theorem compute_mse_mean_nonneg_sym (b d : nat) (A B : tensor) :
  shape A = [b; d] -> shape B = [b; d] ->
  wf_tensor A -> wf_tensor B ->
  (0 < b)%nat -> (0 < d)%nat ->
  exists m m' z : Q,
    compute_mse A B = Ok (Tensor [] [m] (tdev A)) /\
    compute_mse B A = Ok (Tensor [] [m'] (tdev B)) /\
    compute_mse A A = Ok (Tensor [] [z] (tdev A)) /\
    (m == sum_sq_diff b d A B / inject_Z (Z.of_nat (b * d)))%Q /\
    (0 <= m)%Q /\ (z == 0)%Q /\ (m == m')%Q.
Proof.
  intros HA HB WA WB _ _.
  unfold wf_tensor in WA, WB. rewrite HA in WA. rewrite HB in WB.
  assert (LA : length (data A) = (b * d)%nat) by (rewrite WA; simpl; lia).
  assert (LB : length (data B) = (b * d)%nat) by (rewrite WB; simpl; lia).
  exists (Qmean (zip_with sq_diff (data A) (data B))),
         (Qmean (zip_with sq_diff (data B) (data A))),
         (Qmean (zip_with sq_diff (data A) (data A))).
  unfold compute_mse. rewrite HA, HB.
  rewrite !decide_True by reflexivity.
  repeat split.
  - unfold Qmean. rewrite length_zip_sq_diff by congruence. rewrite LA.
    apply Qdiv_comp; [apply Qsum_zip_sq_diff_rows; assumption | reflexivity].
  - apply Qmean_nonneg, zip_sq_diff_nonneg.
  - unfold Qmean, Qdiv.
    rewrite (Qsum_zeros _ (zip_sq_diff_diag (data A))). ring.
  - unfold Qmean. rewrite !length_zip_sq_diff by congruence.
    rewrite LA, LB.
    apply Qdiv_comp; [apply Qsum_zip_sq_diff_sym | reflexivity].
Qed.

(** The theorem at two batches of shape (2, 2). *)
Lemma compute_mse_mean_nonneg_sym_witness :
  exists m m' z : Q,
    compute_mse batch_a batch_b = Ok (Tensor [] [m] (tdev batch_a)) /\
    compute_mse batch_b batch_a = Ok (Tensor [] [m'] (tdev batch_b)) /\
    compute_mse batch_a batch_a = Ok (Tensor [] [z] (tdev batch_a)) /\
    (m == sum_sq_diff 2 2 batch_a batch_b / inject_Z (Z.of_nat (2 * 2)))%Q /\
    (0 <= m)%Q /\ (z == 0)%Q /\ (m == m')%Q.
Proof.
  apply (compute_mse_mean_nonneg_sym 2 2 batch_a batch_b);
    first [reflexivity | lia].
Defined.

(** * Reasoning about runs *)

Section TraceInvariants.
Context {BM : Type}.
Variable P : event -> Prop.

Lemma emits_ret {A} (a : A) : emits P (@ret BM A a).
Proof. intros w. exists []. split; [symmetry; apply app_nil_r | constructor]. Qed.

Lemma emits_raise {A} (e : exn) : emits P (@raise BM A e).
Proof. intros w. exists []. split; [symmetry; apply app_nil_r | constructor]. Qed.

Lemma emits_lift {A} (r : result A) : emits P (@lift BM A r).
Proof. intros w. exists []. split; [symmetry; apply app_nil_r | constructor]. Qed.

Lemma emits_read_device : emits P (@read_device BM).
Proof.
  intros w. exists []. split; [|constructor].
  unfold read_device. destruct (globals w !! "device") as [[]|];
    symmetry; apply app_nil_r.
Qed.

Lemma emits_set_global (name : string) (v : pyval) :
  emits P (@set_global BM name v).
Proof. intros w. exists []. split; [symmetry; apply app_nil_r | constructor]. Qed.

Lemma emits_emit (e : event) : P e -> emits P (@emit BM e).
Proof. intros He w. exists [e]. split; [reflexivity | repeat constructor; exact He]. Qed.

Lemma emits_bind {A B} (c : @M BM A) (k : A -> M B) :
  emits P c -> (forall a, emits P (k a)) -> emits P (bind c k).
Proof.
  intros Hc Hk w. unfold bind.
  destruct (Hc w) as (tr1 & E1 & F1).
  destruct (c w) as [[a|e] w1]; simpl in E1.
  - destruct (Hk a w1) as (tr2 & E2 & F2).
    exists (tr1 ++ tr2). split.
    + rewrite E2, E1. symmetry. apply app_assoc.
    + apply Forall_app. split; assumption.
  - exists tr1. split; assumption.
Qed.

Lemma emits_for_each {A S} (body : A -> S -> @M BM S) (xs : list A) :
  (forall x s, emits P (body x s)) -> forall s, emits P (for_each xs body s).
Proof.
  intros Hbody. induction xs as [|x xs IH]; intros s; simpl.
  - apply emits_ret.
  - apply emits_bind; [apply Hbody | exact IH].
Qed.

Lemma emits_sdeint impl s y0 ts dt bm method opts :
  (forall ret, P (EvSdeint s y0 ts dt bm method opts ret)) ->
  emits P (@sdeint BM impl s y0 ts dt bm method opts).
Proof.
  intros HP w. unfold sdeint.
  destruct (store w !! bm) as [b|].
  - destruct (impl s y0 ts dt method opts b) as [r b'].
    eexists. split; [reflexivity | repeat constructor; apply HP].
  - exists []. split; [symmetry; apply app_nil_r | constructor].
Qed.

Lemma emits_analytical_sample impl s y0 ts bm :
  (forall ret, P (EvAnalyticalSample s y0 ts bm ret)) ->
  emits P (@analytical_sample BM impl s y0 ts bm).
Proof.
  intros HP w. unfold analytical_sample.
  destruct (store w !! bm) as [b|].
  - destruct (impl s y0 ts b) as [r b'].
    eexists. split; [reflexivity | repeat constructor; apply HP].
  - exists []. split; [symmetry; apply app_nil_r | constructor].
Qed.

Lemma emits_BrownianPath init t0 w0 :
  (forall r, P (EvBrownianPath r t0 w0)) ->
  emits P (@BrownianPath BM init t0 w0).
Proof.
  intros HP w. eexists. split; [reflexivity | repeat constructor; apply HP].
Qed.

Lemma emits_linregress impl xs ys :
  P (EvLinregress xs ys) -> emits P (@linregress BM impl xs ys).
Proof.
  intros HP. unfold linregress.
  apply emits_bind; [apply emits_emit, HP | intros _; apply emits_lift].
Qed.

Lemma emits_plt_plot xs ys label :
  P (EvPlot xs ys label) -> emits P (@plt_plot BM xs ys label).
Proof.
  intros HP. unfold plt_plot. case_decide.
  - apply emits_emit, HP.
  - apply emits_raise.
Qed.

Lemma emits_del_last v : emits P (@del_last BM v).
Proof.
  unfold del_last. destruct (last_mse_ v); [apply emits_ret | apply emits_raise].
Qed.

End TraceInvariants.

(** One step of a proof that a program only emits events satisfying a
    predicate that computes on constructors. *)
Ltac emits_step :=
  first
    [ apply emits_ret | apply emits_raise | apply emits_lift
    | apply emits_read_device | apply emits_del_last | apply emits_set_global
    | apply emits_bind; [|intros ?]
    | apply emits_for_each; intros ? ?
    | apply emits_sdeint; intros ?
    | apply emits_analytical_sample; intros ?
    | apply emits_linregress
    | apply emits_BrownianPath; intros ?
    | apply emits_plt_plot
    | apply emits_emit ].

(** The case of [sdeint_options_ok] a literal call falls in. *)
Ltac options_case :=
  simpl;
  first [ left; split; reflexivity
        | right; split; [first [left; reflexivity | right; reflexivity] | reflexivity] ].

Section Invariants.
Context {BM : Type}.
Variable BrownianPath_init : tensor -> tensor -> BM.
Variable sdeint_impl :
  sde -> tensor -> tensor -> Q -> string -> options -> BM -> result tensor * BM.
Variable analytical_sample_impl :
  sde -> tensor -> tensor -> BM -> result tensor * BM.
Variable linregress_impl :
  list xfloat -> list xfloat -> result (xfloat * xfloat * xfloat * xfloat * xfloat).

Lemma emits_plot_sample (P : event -> Prop) ts_ it u :
  (forall e, match e with
             | EvFigure | EvPlot _ _ _ | EvLegend | EvSavefig _ | EvClose => P e
             | _ => True
             end) ->
  emits P (@plot_sample BM ts_ it u).
Proof.
  intros HP. destruct it as [i [[[e m] s] a]]. unfold plot_sample.
  unfold plt_figure, plt_legend, plt_savefig, plt_close.
  repeat (emits_step; try match goal with |- P ?e => exact (HP e) end).
Qed.

Lemma sdeint_options_ok_plain (e : event) :
  match e with EvSdeint _ _ _ _ _ _ _ _ => False | _ => True end ->
  sdeint_options_ok e.
Proof. destruct e; simpl; tauto. Qed.

Lemma emits_options_sample b d steps :
  emits sdeint_options_ok
        (inspect_sample_at BrownianPath_init sdeint_impl analytical_sample_impl
                           b d steps).
Proof.
  unfold inspect_sample_at, makedirs_if_not_found.
  repeat (cbv zeta; emits_step);
    try (apply emits_plot_sample; intros []; exact I);
    try (intros; exact I);
    options_case.
Qed.

Lemma emits_options_strong_order b d :
  emits sdeint_options_ok
        (inspect_strong_order_at BrownianPath_init sdeint_impl
                                 analytical_sample_impl linregress_impl b d).
Proof.
  unfold inspect_strong_order_at, makedirs_if_not_found, plt_figure,
    plt_xscale, plt_yscale, plt_legend, plt_savefig, plt_close.
  repeat (cbv zeta; unfold strong_order_step; emits_step);
    try (intros; exact I);
    options_case.
Qed.

End Invariants.

(** C10: in both experiments, whatever the services do and wherever the run
    stops, every call of the integrator that the run adds to the trace
    passes [options={'trapezoidal_approx': False}] when the scheme is the
    stochastic Runge-Kutta one, and no [options] when it is Euler or
    Milstein. *)
Theorem sdeint_options_by_scheme {BM : Type}
        (BrownianPath_init : tensor -> tensor -> BM)
        (sdeint_impl :
           sde -> tensor -> tensor -> Q -> string -> options -> BM
           -> result tensor * BM)
        (analytical_sample_impl :
           sde -> tensor -> tensor -> BM -> result tensor * BM)
        (linregress_impl :
           list xfloat -> list xfloat
           -> result (xfloat * xfloat * xfloat * xfloat * xfloat))
        (batch_size d steps : nat) (w : world) :
  (exists tr : list event,
     trace (snd (inspect_sample_at BrownianPath_init sdeint_impl
                                   analytical_sample_impl batch_size d steps w))
       = trace w ++ tr /\
     Forall sdeint_options_ok tr) /\
  (exists tr : list event,
     trace (snd (inspect_strong_order_at BrownianPath_init sdeint_impl
                                         analytical_sample_impl linregress_impl
                                         batch_size d w))
       = trace w ++ tr /\
     Forall sdeint_options_ok tr).
Proof.
  split.
  - apply emits_options_sample.
  - apply emits_options_strong_order.
Qed.

(** * Runs that return *)

Section Inversion.
Context {BM : Type}.
Implicit Types w : @world BM.

Lemma bind_ok_inv {A B} (c : @M BM A) (k : A -> M B) w b w' :
  bind c k w = (Ok b, w') ->
  exists a w1, c w = (Ok a, w1) /\ k a w1 = (Ok b, w').
Proof.
  unfold bind. destruct (c w) as [[a|e] w1]; intros H; [eauto | discriminate].
Qed.

Lemma ret_ok_inv {A} (a b : A) w w' :
  ret a w = (Ok b, w') -> b = a /\ w' = w.
Proof. unfold ret. intros H. inversion H. auto. Qed.

Lemma lift_ok_inv {A} (r : result A) w a w' :
  lift r w = (Ok a, w') -> r = Ok a /\ w' = w.
Proof. unfold lift. intros H. inversion H. auto. Qed.

Lemma emit_ok_inv (e : event) w u w' :
  emit e w = (Ok u, w') -> trace w' = trace w ++ [e].
Proof. unfold emit. intros H. inversion H. reflexivity. Qed.

Lemma sdeint_ok_inv impl s y0 ts dt bm method opts w t w' :
  @sdeint BM impl s y0 ts dt bm method opts w = (Ok t, w') ->
  trace w' = trace w ++ [EvSdeint s y0 ts dt bm method opts (Ok t)].
Proof.
  unfold sdeint. destruct (store w !! bm) as [b|]; [|discriminate].
  destruct (impl s y0 ts dt method opts b) as [r b'].
  intros H. inversion H. reflexivity.
Qed.

Lemma analytical_sample_ok_inv impl s y0 ts bm w t w' :
  @analytical_sample BM impl s y0 ts bm w = (Ok t, w') ->
  trace w' = trace w ++ [EvAnalyticalSample s y0 ts bm (Ok t)].
Proof.
  unfold analytical_sample. destruct (store w !! bm) as [b|]; [|discriminate].
  destruct (impl s y0 ts b) as [r b'].
  intros H. inversion H. reflexivity.
Qed.

Lemma linregress_ok_inv impl xs ys w r w' :
  @linregress BM impl xs ys w = (Ok r, w') ->
  impl xs ys = Ok r /\ trace w' = trace w ++ [EvLinregress xs ys].
Proof.
  unfold linregress, bind, emit, lift. intros H. inversion H. auto.
Qed.

Lemma plt_plot_ok_inv xs ys label w u w' :
  @plt_plot BM xs ys label w = (Ok u, w') ->
  first_dim xs = first_dim ys /\ trace w' = trace w ++ [EvPlot xs ys label].
Proof.
  unfold plt_plot. case_decide as Hdim; [|discriminate].
  intros H. apply emit_ok_inv in H. auto.
Qed.

Lemma del_last_ok_inv v w u w' :
  @del_last BM v w = (Ok u, w') -> last_mse_ v <> None /\ w' = w.
Proof.
  unfold del_last. destruct (last_mse_ v); [|discriminate].
  intros H. apply ret_ok_inv in H as [_ ->]. auto.
Qed.

End Inversion.

Lemma unpack2_ok_inv (r : tensor) (p : tensor * tensor) :
  unpack2 r = Ok p -> two_point r /\ snd p = terminal r.
Proof.
  unfold unpack2, tensor_iter, two_point, terminal.
  destruct (shape r) as [|n rest]; [discriminate|].
  destruct n as [|[|[|n]]]; simpl; try discriminate.
  intros H. injection H as <-. split; [eauto | reflexivity].
Qed.

Lemma compute_mse_ok_inv (x y m : tensor) :
  compute_mse x y = Ok m -> exists q : Q, to_numpy m = np_scalar q.
Proof.
  unfold compute_mse. case_decide as Hshape; [|discriminate].
  intros H. injection H as <-. eexists. reflexivity.
Qed.

(** Splitting a run that returned at its first [bind]. *)
Tactic Notation "inv_bind" ident(H) ident(a) ident(w) ident(E) :=
  apply bind_ok_inv in H; destruct H as (a & w & E & H); cbv beta zeta in H.

Tactic Notation "inv_lift" ident(E) :=
  apply lift_ok_inv in E; destruct E as [E ->].

Section StrongOrderRuns.
Context {BM : Type}.
Variable BrownianPath_init : tensor -> tensor -> BM.
Variable sdeint_impl :
  sde -> tensor -> tensor -> Q -> string -> options -> BM -> result tensor * BM.
Variable analytical_sample_impl :
  sde -> tensor -> tensor -> BM -> result tensor * BM.
Variable linregress_impl :
  list xfloat -> list xfloat -> result (xfloat * xfloat * xfloat * xfloat * xfloat).

Local Abbreviation step := (strong_order_step sdeint_impl analytical_sample_impl).

(** One pass of the loop that returns. *)
Lemma strong_order_step_ok s y0 ts bm dt v (w : @world BM) v' w' :
  step s y0 ts bm dt v w = (Ok v', w') ->
  exists o : step_obs,
    obs_dt o = dt /\ obs_consistent o /\
    trace w' = trace w ++ step_events s y0 ts bm o /\
    euler_mses_ v' = euler_mses_ v ++ [np_scalar (err_euler o)] /\
    milstein_mses_ v' = milstein_mses_ v ++ [np_scalar (err_milstein o)] /\
    srk_mses_ v' = srk_mses_ v ++ [np_scalar (err_srk o)] /\
    last_mse_ v' <> None.
Proof.
  intros H. unfold strong_order_step in H.
  inv_bind H re w1 E1. inv_bind H pe w2 U1. inv_lift U1.
  inv_bind H rm w3 E2. inv_bind H pm w4 U2. inv_lift U2.
  inv_bind H rs w5 E3. inv_bind H ps w6 U3. inv_lift U3.
  inv_bind H ra w7 E4. inv_bind H pa w8 U4. inv_lift U4.
  inv_bind H me w9 M1. inv_lift M1.
  inv_bind H mm w10 M2. inv_lift M2.
  inv_bind H ms w11 M3. inv_lift M3.
  apply ret_ok_inv in H as [-> ->].
  apply sdeint_ok_inv in E1, E2, E3. apply analytical_sample_ok_inv in E4.
  apply unpack2_ok_inv in U1 as [T1 S1], U2 as [T2 S2], U3 as [T3 S3], U4 as [T4 S4].
  rewrite S1, S4 in M1. rewrite S2, S4 in M2. rewrite S3, S4 in M3.
  destruct (compute_mse_ok_inv _ _ _ M1) as [qe Qe].
  destruct (compute_mse_ok_inv _ _ _ M2) as [qm Qm].
  destruct (compute_mse_ok_inv _ _ _ M3) as [qs Qs].
  exists (StepObs dt re rm rs ra qe qm qs). simpl.
  split; [reflexivity|]. split.
  - unfold obs_consistent, terminal_mse; simpl. repeat split; eauto.
  - rewrite Qe, Qm, Qs.
    split; [|do 3 (split; [reflexivity|]); discriminate].
    rewrite E4, E3, E2, E1. unfold step_events, srk_options; simpl.
    rewrite <- !app_assoc. reflexivity.
Qed.

(** The loop, when it returns: one pass per step size, in order. *)
Lemma strong_order_loop_ok s y0 ts bm :
  forall (l : list Q) v (w : @world BM) v' w',
    for_each l (step s y0 ts bm) v w = (Ok v', w') ->
    exists obs : list step_obs,
      map obs_dt obs = l /\ Forall obs_consistent obs /\
      trace w' = trace w ++ flat_map (step_events s y0 ts bm) obs /\
      euler_mses_ v' = euler_mses_ v ++ map np_scalar (map err_euler obs) /\
      milstein_mses_ v' = milstein_mses_ v ++ map np_scalar (map err_milstein obs) /\
      srk_mses_ v' = srk_mses_ v ++ map np_scalar (map err_srk obs) /\
      (l <> [] \/ last_mse_ v <> None -> last_mse_ v' <> None).
Proof.
  induction l as [|dt l IH]; intros v w v' w' H; simpl in H.
  - apply ret_ok_inv in H as [-> ->]. exists [].
    simpl. rewrite !app_nil_r.
    do 6 (split; [first [reflexivity | constructor]|]).
    intros [Hn|Hn]; congruence.
  - inv_bind H v1 w1 E.
    apply strong_order_step_ok in E as (o & Hdt & Hc & Ht & He & Hm & Hs & Hl).
    apply IH in H as (obs & Hdts & Hcs & Hts & Hes & Hms & Hss & Hls).
    exists (o :: obs). subst dt. simpl.
    rewrite Hts, Ht, Hes, He, Hms, Hm, Hss, Hs, Hdts, <- !app_assoc.
    do 6 (split; [first [reflexivity | constructor; assumption]|]).
    intros _. apply Hls. right. exact Hl.
Qed.

Lemma read_device_bound (dev : device) (w : @world BM) :
  globals w !! "device" = Some (VDevice dev) -> read_device w = (Ok dev, w).
Proof. intros H. unfold read_device. rewrite H. reflexivity. Qed.

Lemma flat_map_ndata_scalars (qs : list Q) : flat_map ndata (map np_scalar qs) = qs.
Proof. induction qs as [|q qs IH]; simpl; [|rewrite IH]; reflexivity. Qed.

Lemma np_array_scalars (qs : list Q) :
  np_array (map np_scalar qs) = np_array_floats qs.
Proof.
  unfold np_array, np_array_floats.
  rewrite flat_map_ndata_scalars, length_map. destruct qs; reflexivity.
Qed.

Lemma fit_ys_scalars (qs : list Q) :
  map xhalve (log (np_array (map np_scalar qs))) = fit_ys qs.
Proof.
  rewrite np_array_scalars. unfold log, fit_ys, np_array_floats; simpl.
  apply map_map.
Qed.

(** The whole experiment, when it returns: one Brownian path, one pass per
    step size, three regressions on the logarithms, and the report. *)
Lemma inspect_strong_order_at_ok (b d : nat) (dev : device) (w w' : @world BM) :
  globals w !! "device" = Some (VDevice dev) ->
  inspect_strong_order_at BrownianPath_init sdeint_impl analytical_sample_impl
                          linregress_impl b d w = (Ok tt, w') ->
  exists (obs : list step_obs) (re rm rs : xfloat * xfloat * xfloat * xfloat * xfloat),
    map obs_dt obs = dts /\ Forall obs_consistent obs /\
    linregress_impl (fit_xs dts) (fit_ys (map err_euler obs)) = Ok re /\
    linregress_impl (fit_xs dts) (fit_ys (map err_milstein obs)) = Ok rm /\
    linregress_impl (fit_xs dts) (fit_ys (map err_srk obs)) = Ok rs /\
    trace w' =
      trace w
      ++ EvBrownianPath (next_ref w) (Tensor [] [0%Q] dev)
                        (torch_zeros_like (tensor_to dev (torch_ones [b; d])))
      :: flat_map (step_events (Ex2 d dev) (tensor_to dev (torch_ones [b; d]))
                               (tensor_to dev (torch_tensor [0; 5]%Q))
                               (next_ref w)) obs
      ++ report_events (map err_euler obs) (map err_milstein obs)
                       (map err_srk obs) re rm rs.
Proof.
  intros Hdev H. unfold inspect_strong_order_at in H.
  inv_bind H dev1 w1 D1. rewrite (read_device_bound dev) in D1 by exact Hdev.
  injection D1 as <- <-.
  inv_bind H p w2 U. inv_lift U.
  assert (Hp : p = (Tensor [] [0%Q] dev, Tensor [] [5%Q] dev))
    by (cbv in U; congruence).
  subst p. cbn [fst] in H. clear U.
  inv_bind H dev2 w3 D2. rewrite (read_device_bound dev) in D2 by exact Hdev.
  injection D2 as <- <-.
  inv_bind H dev3 w4 D3. rewrite (read_device_bound dev) in D3 by exact Hdev.
  injection D3 as <- <-.
  inv_bind H bm w5 B. unfold BrownianPath in B. injection B as <- <-.
  inv_bind H v w6 L.
  apply strong_order_loop_ok in L
    as (obs & Hdts & Hcs & Hts & Hes & Hms & Hss & _).
  cbn [euler_mses_ milstein_mses_ srk_mses_ app trace] in Hts, Hes, Hms, Hss.
  inv_bind H u1 w7 Dl. apply del_last_ok_inv in Dl as [_ ->].
  rewrite Hes, Hms, Hss in H.
  rewrite !fit_ys_scalars, !np_array_scalars in H.
  change (log (np_array_floats dts)) with (fit_xs dts) in H.
  inv_bind H re w8 R1. apply linregress_ok_inv in R1 as [F1 T1].
  inv_bind H rm w9 R2. apply linregress_ok_inv in R2 as [F2 T2].
  inv_bind H rs w10 R3. apply linregress_ok_inv in R3 as [F3 T3].
  inv_bind H u2 w11 P1. apply emit_ok_inv in P1.
  inv_bind H u3 w12 P2. apply plt_plot_ok_inv in P2 as [_ P2].
  inv_bind H u4 w13 P3. apply plt_plot_ok_inv in P3 as [_ P3].
  inv_bind H u5 w14 P4. apply plt_plot_ok_inv in P4 as [_ P4].
  inv_bind H u6 w15 P5. apply emit_ok_inv in P5.
  inv_bind H u7 w16 P6. apply emit_ok_inv in P6.
  inv_bind H u8 w17 P7. apply emit_ok_inv in P7.
  inv_bind H u9 w18 P8. apply emit_ok_inv in P8.
  inv_bind H u10 w19 P9. apply emit_ok_inv in P9.
  apply emit_ok_inv in H.
  exists obs, re, rm, rs.
  do 5 (split; [assumption|]).
  rewrite H, P9, P8, P7, P6, P5, P4, P3, P2, P1, T3, T2, T1, Hts.
  unfold report_events. rewrite <- !app_assoc. reflexivity.
Qed.

End StrongOrderRuns.

(** * What the traces of the convergence-order experiment contain *)

Section StepProjections.
Variables (s : sde) (y0 ts : tensor) (bm : nat).

Lemma sdeint_dts_steps (method : string) (obs : list step_obs) :
  method = "euler" \/ method = "milstein" \/ method = "srk" ->
  sdeint_dts method (flat_map (step_events s y0 ts bm) obs) = map obs_dt obs.
Proof.
  intros Hm. unfold sdeint_dts.
  induction obs as [|o obs IH]; [reflexivity|].
  cbn [flat_map step_events app map]. rewrite IH.
  destruct Hm as [ -> | [ -> | -> ] ]; reflexivity.
Qed.

Lemma service_calls_steps (obs : list step_obs) :
  service_calls (flat_map (step_events s y0 ts bm) obs)
  = flat_map (step_events s y0 ts bm) obs.
Proof.
  unfold service_calls.
  induction obs as [|o obs IH]; [reflexivity|].
  cbn [flat_map step_events app]. rewrite IH. reflexivity.
Qed.

Lemma service_grids_steps (obs : list step_obs) :
  Forall (fun g => g = ts) (service_grids (flat_map (step_events s y0 ts bm) obs)).
Proof.
  unfold service_grids.
  induction obs as [|o obs IH]; [constructor|].
  cbn [flat_map step_events app]. repeat (constructor; [reflexivity|]). exact IH.
Qed.

Lemma fitted_curves_steps (name : string) (obs : list step_obs) :
  fitted_curves name (flat_map (step_events s y0 ts bm) obs) = [].
Proof.
  unfold fitted_curves.
  induction obs as [|o obs IH]; [reflexivity|].
  cbn [flat_map step_events app]. exact IH.
Qed.

Lemma regressions_steps (obs : list step_obs) :
  regressions (flat_map (step_events s y0 ts bm) obs) = [].
Proof.
  unfold regressions.
  induction obs as [|o obs IH]; [reflexivity|].
  cbn [flat_map step_events app]. exact IH.
Qed.

Lemma length_steps (obs : list step_obs) :
  length (flat_map (step_events s y0 ts bm) obs) = (4 * length obs)%nat.
Proof.
  induction obs as [|o obs IH]; [reflexivity|].
  cbn [flat_map step_events app length]. rewrite IH. lia.
Qed.

End StepProjections.

Lemma sdeint_dts_app (m : string) (a b : list event) :
  sdeint_dts m (a ++ b) = sdeint_dts m a ++ sdeint_dts m b.
Proof. apply flat_map_app. Qed.

Lemma service_calls_app (a b : list event) :
  service_calls (a ++ b) = service_calls a ++ service_calls b.
Proof. apply flat_map_app. Qed.

Lemma service_grids_app (a b : list event) :
  service_grids (a ++ b) = service_grids a ++ service_grids b.
Proof. apply flat_map_app. Qed.

Lemma fitted_curves_app (n : string) (a b : list event) :
  fitted_curves n (a ++ b) = fitted_curves n a ++ fitted_curves n b.
Proof. apply flat_map_app. Qed.

Lemma regressions_app (a b : list event) :
  regressions (a ++ b) = regressions a ++ regressions b.
Proof. apply flat_map_app. Qed.

(** Projecting the events of a run that returned: the Brownian path first,
    then the passes, then the report. *)
Ltac project_run :=
  repeat match goal with
         | |- context [?e :: flat_map ?f ?obs ++ ?r] =>
           change (e :: flat_map f obs ++ r) with ([e] ++ flat_map f obs ++ r)
         end;
  rewrite ?sdeint_dts_app, ?service_calls_app, ?service_grids_app,
    ?fitted_curves_app, ?regressions_app;
  rewrite ?sdeint_dts_steps by tauto;
  rewrite ?service_calls_steps, ?fitted_curves_steps, ?regressions_steps.

Lemma fit_xs_dts : fit_xs dts = map (fun dt => Fin (ln (Q2R dt))) dts.
Proof. reflexivity. Qed.

Lemma half_log_positive (q : Q) :
  (0 < q)%Q -> xhalve (np_log q) = Fin (ln (Q2R q) / 2).
Proof.
  intros Hq. unfold np_log.
  apply Qgt_alt in Hq. rewrite Hq. reflexivity.
Qed.


Lemma zeros_like_ones (dev : device) (b d : nat) :
  torch_zeros_like (tensor_to dev (torch_ones [b; d]))
  = Tensor [b; d] (replicate (b * d) 0%Q) dev.
Proof.
  unfold torch_zeros_like, tensor_to, torch_ones; simpl.
  rewrite length_replicate, Nat.mul_1_r. reflexivity.
Qed.

Lemma run_ok_eta {BM A : Type} (r : result A * @world BM) (a : A) :
  fst r = Ok a -> r = (Ok a, snd r).
Proof. destruct r as [x w]; simpl. intros ->. reflexivity. Qed.

Lemma Rsgn_pos (r : R) : (0 < r)%R -> Rsgn r = Gt.
Proof.
  intros Hr. unfold Rsgn.
  destruct (total_order_T r 0) as [[Hlt|Heq]|Hgt]; [lra | lra | reflexivity].
Qed.

(** * The least-squares line *)

Section LeastSquares.
Local Open Scope R_scope.

Lemma xsum_fin (rs : list R) : xsum (map Fin rs) = Fin (Rsum rs).
Proof.
  unfold xsum, Rsum. induction rs as [|r rs IH]; [reflexivity|].
  cbn [map foldr]. rewrite IH. reflexivity.
Qed.

Lemma xmean_fin (rs : list R) :
  rs <> [] -> xmean (map Fin rs) = Fin (Rsum rs / INR (length rs)).
Proof.
  intros Hne. unfold xmean. rewrite xsum_fin, length_map. unfold xdiv.
  rewrite Rsgn_pos; [reflexivity|].
  apply lt_0_INR. destruct rs; [congruence | simpl; lia].
Qed.

Lemma zip_with_fin (f : xfloat -> xfloat -> xfloat) (g : R -> R -> R) :
  (forall x y, f (Fin x) (Fin y) = Fin (g x y)) ->
  forall xs ys : list R,
    zip_with f (map Fin xs) (map Fin ys) = map Fin (zip_with g xs ys).
Proof.
  intros H. induction xs as [|x xs IH]; intros [|y ys]; try reflexivity.
  cbn [map zip_with]. rewrite H, IH. reflexivity.
Qed.

Lemma Rsum_nonneg (rs : list R) : Forall (fun r => 0 <= r) rs -> 0 <= Rsum rs.
Proof.
  unfold Rsum. induction 1 as [|r rs Hr _ IH]; cbn [foldr]; lra.
Qed.

(** The sums a straight-line fit is computed from. *)
Local Abbreviation sum_sq xs := (Rsum (map (fun x : R => x * x) xs)).
Local Abbreviation sum_prod xs ys := (Rsum (zip_with Rmult xs ys)).

Lemma Rsum_centred_sq (a : R) (xs : list R) :
  Rsum (map (fun x => (x + - a) * (x + - a)) xs)
  = sum_sq xs - 2 * a * Rsum xs + INR (length xs) * a * a.
Proof.
  unfold Rsum. induction xs as [|x xs IH].
  - cbn. ring.
  - cbn [map foldr length]. rewrite IH, S_INR. ring.
Qed.

Lemma Rsum_centred_prod (a b : R) (xs ys : list R) :
  length xs = length ys ->
  Rsum (zip_with (fun x y => (x + - a) * (y + - b)) xs ys)
  = sum_prod xs ys - b * Rsum xs - a * Rsum ys + INR (length xs) * a * b.
Proof.
  unfold Rsum. revert ys.
  induction xs as [|x xs IH]; intros [|y ys] Hl; try discriminate.
  - cbn. ring.
  - cbn [zip_with foldr length]. rewrite IH by (simpl in Hl; lia).
    rewrite S_INR. ring.
Qed.

Lemma sq_residuals_expand (k c : R) (xs ys : list R) :
  length xs = length ys ->
  sq_residuals xs ys k c
  = sum_sq ys - 2 * k * sum_prod xs ys - 2 * c * Rsum ys
    + k * k * sum_sq xs + 2 * k * c * Rsum xs + INR (length xs) * c * c.
Proof.
  unfold sq_residuals, Rsum. revert ys.
  induction xs as [|x xs IH]; intros [|y ys] Hl; try discriminate.
  - cbn. ring.
  - cbn [zip_with map foldr length]. rewrite IH by (simpl in Hl; lia).
    rewrite S_INR. ring.
Qed.

Lemma line_sq_nonneg (a e : R) (xs : list R) :
  0 <= a * a * sum_sq xs + 2 * a * e * Rsum xs + INR (length xs) * e * e.
Proof.
  assert (H : a * a * sum_sq xs + 2 * a * e * Rsum xs + INR (length xs) * e * e
              = Rsum (map (fun x => (a * x + e) * (a * x + e)) xs)).
  { unfold Rsum. induction xs as [|x xs IH].
    - cbn. ring.
    - cbn [map foldr length]. rewrite <- IH, S_INR. ring. }
  rewrite H. apply Rsum_nonneg. apply Forall_forall.
  intros r Hr%list_elem_of_fmap. destruct Hr as (x & -> & _). exact (Rle_0_sqr _).
Qed.

Lemma Rsum_sq_zero (a : R) (xs : list R) :
  Rsum (map (fun x => (x + - a) * (x + - a)) xs) = 0 ->
  Forall (fun x => x = a) xs.
Proof.
  unfold Rsum. induction xs as [|x xs IH]; intros H; [constructor|].
  cbn [map foldr] in H.
  assert (Hn : 0 <= foldr Rplus 0 (map (fun x => (x + - a) * (x + - a)) xs)).
  { apply Rsum_nonneg. apply Forall_forall.
    intros r Hr%list_elem_of_fmap. destruct Hr as (y & -> & _). exact (Rle_0_sqr _). }
  pose proof (Rle_0_sqr (x + - a)) as Hsq. unfold Rsqr in Hsq.
  constructor.
  - assert (Hz : (x + - a) * (x + - a) = 0) by lra.
    apply Rmult_integral in Hz. lra.
  - apply IH. lra.
Qed.

(** On finitely many finite points whose abscissas are not all equal, the
    slope and the intercept of the fit are finite and their line has the
    least sum of squared residuals among all lines. *)
Lemma ols_slope_least_squares (xs ys : list R) (i j : nat) (xi xj : R) :
  length xs = length ys ->
  xs !! i = Some xi -> xs !! j = Some xj -> xi <> xj ->
  exists k c : R,
    ols_slope (map Fin xs) (map Fin ys) = Fin k /\
    ols_intercept (map Fin xs) (map Fin ys) = Fin c /\
    forall k' c' : R, sq_residuals xs ys k c <= sq_residuals xs ys k' c'.
Proof.
  intros Hl Hi Hj Hne.
  assert (Hxs : xs <> []) by (intros ->; discriminate).
  assert (Hys : ys <> []) by (intros ->; destruct xs; [congruence | discriminate]).
  assert (Hlen : (0 < length xs)%nat) by (destruct xs; [congruence | simpl; lia]).
  set (n := INR (length xs)).
  assert (Hn : 0 < n) by (apply lt_0_INR; exact Hlen).
  set (mx := Rsum xs / n). set (my := Rsum ys / n).
  set (sxx := Rsum (map (fun x => (x + - mx) * (x + - mx)) xs)).
  set (sxy := Rsum (zip_with (fun x y => (x + - mx) * (y + - my)) xs ys)).
  assert (Hsxx : 0 < sxx).
  { assert (H0 : 0 <= sxx).
    { apply Rsum_nonneg. apply Forall_forall.
      intros r Hr%list_elem_of_fmap. destruct Hr as (y & -> & _). exact (Rle_0_sqr _). }
    destruct (Req_dec sxx 0) as [Hz|Hz]; [|lra].
    apply Rsum_sq_zero in Hz.
    pose proof (proj1 (Forall_lookup _ _) Hz i xi Hi) as H1.
    pose proof (proj1 (Forall_lookup _ _) Hz j xj Hj) as H2.
    cbn beta in H1, H2. congruence. }
  assert (Hslope : ols_slope (map Fin xs) (map Fin ys) = Fin ((sxy / n) / (sxx / n))).
  { unfold ols_slope. cbv zeta.
    rewrite !xmean_fin by assumption. fold n. rewrite <- Hl. fold n. fold mx my.
    rewrite map_map.
    rewrite (map_ext (fun x => xmul (xsub (Fin x) (Fin mx)) (xsub (Fin x) (Fin mx)))
                     (fun x => Fin ((x + - mx) * (x + - mx)))) by reflexivity.
    rewrite <- (map_map (fun x => (x + - mx) * (x + - mx)) Fin).
    rewrite (zip_with_fin _ (fun x y => (x + - mx) * (y + - my))) by reflexivity.
    rewrite !xmean_fin.
    - rewrite length_map, length_zip_with, <- Hl, Nat.min_id. fold n sxx sxy.
      unfold xdiv. rewrite Rsgn_pos; [reflexivity|].
      apply Rdiv_lt_0_compat; assumption.
    - intros H. apply (f_equal length) in H.
      rewrite ?length_map, ?length_zip_with, <- ?Hl, ?Nat.min_id in H.
      cbn [length] in H. lia.
    - intros H. apply (f_equal length) in H.
      rewrite ?length_map, ?length_zip_with, <- ?Hl, ?Nat.min_id in H.
      cbn [length] in H. lia. }
  exists ((sxy / n) / (sxx / n)), (my - (sxy / n) / (sxx / n) * mx).
  split; [exact Hslope|]. split.
  { unfold ols_intercept. rewrite Hslope. rewrite !xmean_fin by assumption.
    fold n. rewrite <- Hl. fold n. fold mx my. reflexivity. }
  intros k' c'.
  set (k := (sxy / n) / (sxx / n)). set (c := my - k * mx).
  rewrite !sq_residuals_expand by exact Hl. fold n.
  pose proof (line_sq_nonneg (k' - k) (c' - c) xs) as Hpos. fold n in Hpos.
  pose proof (Rsum_centred_sq mx xs) as Exx. fold sxx n in Exx.
  pose proof (Rsum_centred_prod mx my xs ys Hl) as Exy. fold sxy n in Exy.
  assert (Hk : k * sxx = sxy) by (unfold k; field; lra).
  assert (Hmx : mx * n = Rsum xs) by (unfold mx; field; lra).
  assert (Hmy : my * n = Rsum ys) by (unfold my; field; lra).
  assert (N1 : k * Rsum xs + n * c = Rsum ys).
  { unfold c. rewrite <- Hmx, <- Hmy. ring. }
  assert (N2 : k * sum_sq xs + c * Rsum xs = sum_prod xs ys).
  { rewrite Exx in Hk. rewrite Exy in Hk. unfold c.
    rewrite <- Hmx, <- Hmy in Hk. rewrite <- Hmx. nra. }
  assert (E : sum_sq ys - 2 * k' * sum_prod xs ys - 2 * c' * Rsum ys
              + k' * k' * sum_sq xs + 2 * k' * c' * Rsum xs + n * c' * c'
              - (sum_sq ys - 2 * k * sum_prod xs ys - 2 * c * Rsum ys
                 + k * k * sum_sq xs + 2 * k * c * Rsum xs + n * c * c)
              = (k' - k) * (k' - k) * sum_sq xs + 2 * (k' - k) * (c' - c) * Rsum xs
                + n * (c' - c) * (c' - c)).
  { rewrite <- N2, <- N1. ring. }
  lra.
Qed.

End LeastSquares.

(** The points of the fit for positive errors are finite. *)
Lemma fit_ordinates_positive (errs : list Q) :
  Forall (fun q => (0 < q)%Q) errs ->
  map (fun q => xhalve (np_log q)) errs
  = map Fin (map (fun q => (ln (Q2R q) / 2)%R) errs).
Proof.
  induction 1 as [|q errs Hq _ IH]; [reflexivity|].
  cbn [map]. rewrite (half_log_positive q Hq), IH. reflexivity.
Qed.

(** The logarithms of the first two step sizes differ. *)
Lemma log_dts_distinct : ln (Q2R (1 # 2)) <> ln (Q2R (1 # 4)).
Proof.
  assert (H : (ln (Q2R (1 # 4)) < ln (Q2R (1 # 2)))%R).
  { apply ln_increasing; unfold Q2R; cbn [Qnum Qden]; lra. }
  lra.
Qed.

(** On the logarithms of the step sizes and the halved logarithms of
    positive errors, the fitted slope is that of a least-squares line. *)
Lemma strong_order_fit_least_squares (errs : list Q) :
  length errs = length dts ->
  Forall (fun q => (0 < q)%Q) errs ->
  exists k c : R,
    ols_slope (map (fun dt => Fin (ln (Q2R dt))) dts)
              (map (fun q => xhalve (np_log q)) errs) = Fin k /\
    forall k' c' : R,
      (sq_residuals (map (fun dt => ln (Q2R dt)) dts)
                    (map (fun q => (ln (Q2R q) / 2)%R) errs) k c
       <= sq_residuals (map (fun dt => ln (Q2R dt)) dts)
                       (map (fun q => (ln (Q2R q) / 2)%R) errs) k' c')%R.
Proof.
  intros Hl Hpos.
  rewrite (fit_ordinates_positive errs Hpos).
  rewrite <- (map_map (fun dt => ln (Q2R dt)) Fin dts).
  destruct (ols_slope_least_squares
              (map (fun dt => ln (Q2R dt)) dts)
              (map (fun q => (ln (Q2R q) / 2)%R) errs)
              0 1 (ln (Q2R (1 # 2))) (ln (Q2R (1 # 4))))
    as (k & c & Hk & _ & Hmin).
  - rewrite !length_map. symmetry. exact Hl.
  - rewrite dts_unfold. reflexivity.
  - rewrite dts_unfold. reflexivity.
  - exact log_dts_distinct.
  - exists k, c. split; [exact Hk | exact Hmin].
Qed.

Section StrongOrderClaims.
Context {BM : Type}.
Variable BrownianPath_init : tensor -> tensor -> BM.
Variable sdeint_impl :
  sde -> tensor -> tensor -> Q -> string -> options -> BM -> result tensor * BM.
Variable analytical_sample_impl :
  sde -> tensor -> tensor -> BM -> result tensor * BM.
Variable linregress_impl :
  list xfloat -> list xfloat -> result (xfloat * xfloat * xfloat * xfloat * xfloat).

Local Abbreviation run :=
  (inspect_strong_order_at BrownianPath_init sdeint_impl analytical_sample_impl
                           linregress_impl).

Lemma bind_read_device {A} (dev : device) (k : device -> @M BM A) (w : world) :
  globals w !! "device" = Some (VDevice dev) -> bind read_device k w = k dev w.
Proof. intros H. unfold bind. rewrite (read_device_bound dev w H). reflexivity. Qed.

(** Up to the creation of the Brownian path nothing can fail, and what
    follows neither creates another one nor passes a different one. *)
Lemma strong_order_prefix (b d : nat) (dev : device) (w : @world BM) :
  globals w !! "device" = Some (VDevice dev) ->
  exists tr : list event,
    trace (snd (run b d w))
    = trace w ++ EvBrownianPath (next_ref w) (Tensor [] [0%Q] dev)
                                (Tensor [b; d] (replicate (b * d) 0%Q) dev) :: tr /\
    Forall (uses_bm (next_ref w)) tr.
Proof.
  intros Hdev. unfold inspect_strong_order_at.
  rewrite (bind_read_device dev) by exact Hdev. cbv beta zeta.
  change (unpack2 (tensor_to dev (torch_tensor [0; 5]%Q)))
    with (Ok (Tensor [] [0%Q] dev, Tensor [] [5%Q] dev)).
  unfold bind at 1, lift at 1. cbv beta iota zeta. cbn [fst].
  rewrite (bind_read_device dev) by exact Hdev. cbv beta zeta.
  rewrite (bind_read_device dev) by exact Hdev. cbv beta zeta.
  unfold bind at 1, BrownianPath at 1. cbv beta iota zeta.
  rewrite zeros_like_ones.
  match goal with
  | |- context [snd (?c ?w5)] =>
    assert (Hrest : emits (uses_bm (next_ref w)) c)
  end.
  { unfold makedirs_if_not_found, plt_figure, plt_xscale, plt_yscale,
      plt_legend, plt_savefig, plt_close.
    repeat (cbv zeta; unfold strong_order_step; emits_step);
      try (intros; exact I); reflexivity. }
  match goal with
  | |- context [snd (?c ?w5)] => destruct (Hrest w5) as (tr & Etr & Ftr)
  end.
  exists tr. split; [|exact Ftr].
  rewrite Etr. cbn [trace]. rewrite <- app_assoc. reflexivity.
Qed.

(** C1: once [device] is bound, a run of the convergence-order experiment
    that returns has created exactly one Brownian path, anchored at the
    start time 0 with a zero initial value of shape (batch size,
    dimensionality); no later event creates another one, and the calls to
    the numerical services are exactly, for each step size of the series in
    order, the integrator with the scheme euler, with milstein and with srk
    and then the analytical sampler, every one of them on the reference to
    that one object. *)
Theorem one_shared_noise_realization (b d : nat) (dev : device) (w : @world BM) :
  globals w !! "device" = Some (VDevice dev) ->
  fst (run b d w) = Ok tt ->
  exists (obs : list step_obs) (tr : list event),
    trace (snd (run b d w))
    = trace w ++ EvBrownianPath (next_ref w) (Tensor [] [0%Q] dev)
                                (Tensor [b; d] (replicate (b * d) 0%Q) dev) :: tr /\
    Forall (uses_bm (next_ref w)) tr /\
    map obs_dt obs = dts /\
    service_calls tr
    = flat_map (step_events (Ex2 d dev) (so_y0 dev b d) (so_ts dev) (next_ref w)) obs /\
    sdeint_dts "euler" tr = dts /\
    sdeint_dts "milstein" tr = dts /\
    sdeint_dts "srk" tr = dts /\
    length (service_calls tr) = (4 * length dts)%nat.
Proof.
  intros Hdev Hok.
  destruct (strong_order_prefix b d dev w Hdev) as (tr & Etr & Ftr).
  apply run_ok_eta in Hok.
  destruct (inspect_strong_order_at_ok _ _ _ _ b d dev w _ Hdev Hok)
    as (obs & re & rm & rs & Hdts & _ & _ & _ & _ & Ht).
  exists obs, tr. split; [exact Etr|]. split; [exact Ftr|].
  split; [exact Hdts|].
  rewrite Etr, zeros_like_ones in Ht.
  apply app_inv_head in Ht. injection Ht as ->.
  rewrite !sdeint_dts_app, service_calls_app.
  rewrite !sdeint_dts_steps by tauto.
  rewrite service_calls_steps.
  split; [apply app_nil_r|].
  rewrite length_app, length_steps, <- Hdts, length_map.
  repeat split; try apply app_nil_r. cbn. lia.
Qed.

(** C2: let the regression primitive be ordinary least squares, that is,
    let the first component of whatever it returns be the least-squares
    slope of its arguments.  Then in a run that returns, the primitive is
    called three times, once per scheme in the order euler, milstein, srk,
    on the points whose abscissas are the natural logarithms of the step
    sizes and whose ordinates are the logarithms of the scheme's errors,
    halved; and the order reported for each scheme (the number in the label
    of its curve) is the least-squares slope of these points.  For a
    positive error the ordinate is the real number ln(error)/2, and
    whenever the errors of a series are all positive the slope is a finite
    number and, with some intercept, the line of that slope has the least
    sum of squared residuals among all straight lines. *)
Theorem reported_order_is_regression_slope (b d : nat) (dev : device)
        (w w' : @world BM) :
  globals w !! "device" = Some (VDevice dev) ->
  (forall (xs ys : list xfloat) (k i r p s : xfloat),
      linregress_impl xs ys = Ok (k, i, r, p, s) -> k = ols_slope xs ys) ->
  run b d w = (Ok tt, w') ->
  exists (obs : list step_obs) (tr : list event),
    trace w' = trace w ++ tr /\
    map obs_dt obs = dts /\ Forall obs_consistent obs /\
    regressions tr
    = [(map (fun dt => Fin (ln (Q2R dt))) dts,
        map (fun q => xhalve (np_log q)) (map err_euler obs));
       (map (fun dt => Fin (ln (Q2R dt))) dts,
        map (fun q => xhalve (np_log q)) (map err_milstein obs));
       (map (fun dt => Fin (ln (Q2R dt))) dts,
        map (fun q => xhalve (np_log q)) (map err_srk obs))] /\
    fitted_curves "euler" tr
    = [(dts, map err_euler obs,
        ols_slope (map (fun dt => Fin (ln (Q2R dt))) dts)
                  (map (fun q => xhalve (np_log q)) (map err_euler obs)))] /\
    fitted_curves "milstein" tr
    = [(dts, map err_milstein obs,
        ols_slope (map (fun dt => Fin (ln (Q2R dt))) dts)
                  (map (fun q => xhalve (np_log q)) (map err_milstein obs)))] /\
    fitted_curves "srk" tr
    = [(dts, map err_srk obs,
        ols_slope (map (fun dt => Fin (ln (Q2R dt))) dts)
                  (map (fun q => xhalve (np_log q)) (map err_srk obs)))] /\
    (forall q : Q, (0 < q)%Q -> xhalve (np_log q) = Fin (ln (Q2R q) / 2)) /\
    (forall errs : list Q,
        length errs = length dts -> Forall (fun q => (0 < q)%Q) errs ->
        exists k c : R,
          ols_slope (map (fun dt => Fin (ln (Q2R dt))) dts)
                    (map (fun q => xhalve (np_log q)) errs) = Fin k /\
          forall k' c' : R,
            (sq_residuals (map (fun dt => ln (Q2R dt)) dts)
                          (map (fun q => (ln (Q2R q) / 2)%R) errs) k c
             <= sq_residuals (map (fun dt => ln (Q2R dt)) dts)
                             (map (fun q => (ln (Q2R q) / 2)%R) errs) k' c')%R).
Proof.
  intros Hdev Hols Hok.
  destruct (inspect_strong_order_at_ok _ _ _ _ b d dev w w' Hdev Hok)
    as (obs & re & rm & rs & Hdts & Hc & F1 & F2 & F3 & Ht).
  destruct re as [[[[ke ie] ce] pe] se].
  destruct rm as [[[[km im] cm] pm] sm].
  destruct rs as [[[[ks is_] cs] ps] ss].
  apply Hols in F1, F2, F3.
  eexists obs, _.
  split; [exact Ht|]. split; [exact Hdts|]. split; [exact Hc|].
  project_run.
  split; [reflexivity|].
  cbn [slope_of]. rewrite F1, F2, F3.
  do 3 (split; [reflexivity|]).
  split; [exact half_log_positive | exact strong_order_fit_least_squares].
Qed.

(** C4: in a run that returns, every call to the integrator and to the
    analytical sampler is made on the two-point grid (0, 5); every
    trajectory that comes back has exactly two elements along its first
    dimension, and the error of each scheme in each pass is the metric
    applied to the second element of the scheme's trajectory and the second
    element of the analytical trajectory of that pass. *)
Theorem errors_from_terminal_values (b d : nat) (dev : device)
        (w w' : @world BM) :
  globals w !! "device" = Some (VDevice dev) ->
  run b d w = (Ok tt, w') ->
  exists (obs : list step_obs) (tr : list event) (ke km ks : xfloat),
    trace w' = trace w ++ tr /\
    Forall (fun g => g = Tensor [2%nat] [0; 5]%Q dev) (service_grids tr) /\
    service_calls tr
    = flat_map (step_events (Ex2 d dev) (so_y0 dev b d) (so_ts dev) (next_ref w)) obs /\
    Forall obs_consistent obs /\
    fitted_curves "euler" tr = [(dts, map err_euler obs, ke)] /\
    fitted_curves "milstein" tr = [(dts, map err_milstein obs, km)] /\
    fitted_curves "srk" tr = [(dts, map err_srk obs, ks)].
Proof.
  intros Hdev Hok.
  destruct (inspect_strong_order_at_ok _ _ _ _ b d dev w w' Hdev Hok)
    as (obs & re & rm & rs & Hdts & Hc & F1 & F2 & F3 & Ht).
  eexists obs, _, (slope_of re), (slope_of rm), (slope_of rs).
  split; [exact Ht|].
  project_run.
  split; [|split; [|split; [exact Hc|]]].
  - apply Forall_app. split; [constructor|].
    apply Forall_app. split; [apply service_grids_steps | constructor].
  - apply app_nil_r.
  - repeat split; reflexivity.
Qed.

(** C7: in a run that returns, the error series drawn for each scheme has
    one element per step size, and for every index [i] its [i]-th element
    is the error of the [i]-th pass, which called the services with the
    [i]-th step size of the series. *)
Theorem error_series_index_aligned (b d : nat) (dev : device)
        (w w' : @world BM) :
  globals w !! "device" = Some (VDevice dev) ->
  run b d w = (Ok tt, w') ->
  exists (obs : list step_obs) (tr : list event)
         (ee em es : list Q) (ke km ks : xfloat),
    trace w' = trace w ++ tr /\
    service_calls tr
    = flat_map (step_events (Ex2 d dev) (so_y0 dev b d) (so_ts dev) (next_ref w)) obs /\
    Forall obs_consistent obs /\
    fitted_curves "euler" tr = [(dts, ee, ke)] /\
    fitted_curves "milstein" tr = [(dts, em, km)] /\
    fitted_curves "srk" tr = [(dts, es, ks)] /\
    length ee = length dts /\ length em = length dts /\ length es = length dts /\
    forall (i : nat) (dt : Q),
      dts !! i = Some dt ->
      exists o : step_obs,
        obs !! i = Some o /\ obs_dt o = dt /\
        ee !! i = Some (err_euler o) /\
        em !! i = Some (err_milstein o) /\
        es !! i = Some (err_srk o).
Proof.
  intros Hdev Hok.
  destruct (inspect_strong_order_at_ok _ _ _ _ b d dev w w' Hdev Hok)
    as (obs & re & rm & rs & Hdts & Hc & F1 & F2 & F3 & Ht).
  eexists obs, _, (map err_euler obs), (map err_milstein obs), (map err_srk obs),
    (slope_of re), (slope_of rm), (slope_of rs).
  split; [exact Ht|].
  project_run.
  split; [apply app_nil_r|].
  split; [exact Hc|].
  do 3 (split; [reflexivity|]).
  rewrite <- Hdts, !length_map.
  do 3 (split; [reflexivity|]).
  intros i dt Hi. rewrite list_lookup_fmap in Hi.
  destruct (obs !! i) as [o|] eqn:Ho; [|discriminate].
  simpl in Hi. injection Hi as Hi.
  exists o. rewrite !list_lookup_fmap, Ho. repeat split; [exact Hi].
Qed.


End StrongOrderClaims.

(** ** The claims on a concrete run *)

(** The theorem of C1 in [main_world], batch size 1 and dimensionality 1. *)
Lemma one_shared_noise_realization_witness :
  exists (obs : list step_obs) (tr : list event),
    trace (snd (ref_run 1 1))
    = trace main_world
      ++ EvBrownianPath (next_ref main_world) (Tensor [] [0%Q] Cpu)
                        (Tensor [1; 1]%nat (replicate (1 * 1) 0%Q) Cpu) :: tr /\
    Forall (uses_bm (next_ref main_world)) tr /\
    map obs_dt obs = dts /\
    service_calls tr
    = flat_map (step_events (Ex2 1 Cpu) (so_y0 Cpu 1 1) (so_ts Cpu)
                            (next_ref main_world)) obs /\
    sdeint_dts "euler" tr = dts /\
    sdeint_dts "milstein" tr = dts /\
    sdeint_dts "srk" tr = dts /\
    length (service_calls tr) = (4 * length dts)%nat.
Proof.
  apply (one_shared_noise_realization ref_bm_init ref_sdeint ref_analytical
           ols_linregress 1 1 Cpu main_world).
  - reflexivity.
  - reflexivity.
Defined.

(** The theorem of C2 on the run [ref_run 1 1]. *)
Lemma reported_order_is_regression_slope_witness :
  exists (obs : list step_obs) (tr : list event),
    trace (snd (ref_run 1 1)) = trace main_world ++ tr /\
    map obs_dt obs = dts /\ Forall obs_consistent obs /\
    regressions tr
    = [(map (fun dt => Fin (ln (Q2R dt))) dts,
        map (fun q => xhalve (np_log q)) (map err_euler obs));
       (map (fun dt => Fin (ln (Q2R dt))) dts,
        map (fun q => xhalve (np_log q)) (map err_milstein obs));
       (map (fun dt => Fin (ln (Q2R dt))) dts,
        map (fun q => xhalve (np_log q)) (map err_srk obs))] /\
    fitted_curves "euler" tr
    = [(dts, map err_euler obs,
        ols_slope (map (fun dt => Fin (ln (Q2R dt))) dts)
                  (map (fun q => xhalve (np_log q)) (map err_euler obs)))] /\
    fitted_curves "milstein" tr
    = [(dts, map err_milstein obs,
        ols_slope (map (fun dt => Fin (ln (Q2R dt))) dts)
                  (map (fun q => xhalve (np_log q)) (map err_milstein obs)))] /\
    fitted_curves "srk" tr
    = [(dts, map err_srk obs,
        ols_slope (map (fun dt => Fin (ln (Q2R dt))) dts)
                  (map (fun q => xhalve (np_log q)) (map err_srk obs)))] /\
    (forall q : Q, (0 < q)%Q -> xhalve (np_log q) = Fin (ln (Q2R q) / 2)) /\
    (forall errs : list Q,
        length errs = length dts -> Forall (fun q => (0 < q)%Q) errs ->
        exists k c : R,
          ols_slope (map (fun dt => Fin (ln (Q2R dt))) dts)
                    (map (fun q => xhalve (np_log q)) errs) = Fin k /\
          forall k' c' : R,
            (sq_residuals (map (fun dt => ln (Q2R dt)) dts)
                          (map (fun q => (ln (Q2R q) / 2)%R) errs) k c
             <= sq_residuals (map (fun dt => ln (Q2R dt)) dts)
                             (map (fun q => (ln (Q2R q) / 2)%R) errs) k' c')%R).
Proof.
  apply (reported_order_is_regression_slope ref_bm_init ref_sdeint ref_analytical
           ols_linregress 1 1 Cpu main_world (snd (ref_run 1 1))).
  - reflexivity.
  - intros xs ys k i r p s H. injection H as <- _ _ _ _. reflexivity.
  - apply run_ok_eta. reflexivity.
Defined.

(** The theorem of C4 on the run [ref_run 1 1]. *)
Lemma errors_from_terminal_values_witness :
  exists (obs : list step_obs) (tr : list event) (ke km ks : xfloat),
    trace (snd (ref_run 1 1)) = trace main_world ++ tr /\
    Forall (fun g => g = Tensor [2%nat] [0; 5]%Q Cpu) (service_grids tr) /\
    service_calls tr
    = flat_map (step_events (Ex2 1 Cpu) (so_y0 Cpu 1 1) (so_ts Cpu)
                            (next_ref main_world)) obs /\
    Forall obs_consistent obs /\
    fitted_curves "euler" tr = [(dts, map err_euler obs, ke)] /\
    fitted_curves "milstein" tr = [(dts, map err_milstein obs, km)] /\
    fitted_curves "srk" tr = [(dts, map err_srk obs, ks)].
Proof.
  apply (errors_from_terminal_values ref_bm_init ref_sdeint ref_analytical
           ols_linregress 1 1 Cpu main_world (snd (ref_run 1 1))).
  - reflexivity.
  - apply run_ok_eta. reflexivity.
Defined.

(** The theorem of C7 on the run [ref_run 1 1]. *)
Lemma error_series_index_aligned_witness :
  exists (obs : list step_obs) (tr : list event)
         (ee em es : list Q) (ke km ks : xfloat),
    trace (snd (ref_run 1 1)) = trace main_world ++ tr /\
    service_calls tr
    = flat_map (step_events (Ex2 1 Cpu) (so_y0 Cpu 1 1) (so_ts Cpu)
                            (next_ref main_world)) obs /\
    Forall obs_consistent obs /\
    fitted_curves "euler" tr = [(dts, ee, ke)] /\
    fitted_curves "milstein" tr = [(dts, em, km)] /\
    fitted_curves "srk" tr = [(dts, es, ks)] /\
    length ee = length dts /\ length em = length dts /\ length es = length dts /\
    forall (i : nat) (dt : Q),
      dts !! i = Some dt ->
      exists o : step_obs,
        obs !! i = Some o /\ obs_dt o = dt /\
        ee !! i = Some (err_euler o) /\
        em !! i = Some (err_milstein o) /\
        es !! i = Some (err_srk o).
Proof.
  apply (error_series_index_aligned ref_bm_init ref_sdeint ref_analytical
           ols_linregress 1 1 Cpu main_world (snd (ref_run 1 1))).
  - reflexivity.
  - apply run_ok_eta. reflexivity.
Defined.


(** ** The least-squares slope on ordinates that are all minus infinity *)







(** * The path-comparison experiment *)

Section SampleRuns.
Context {BM : Type}.
Variable BrownianPath_init : tensor -> tensor -> BM.
Variable sdeint_impl :
  sde -> tensor -> tensor -> Q -> string -> options -> BM -> result tensor * BM.
Variable analytical_sample_impl :
  sde -> tensor -> tensor -> BM -> result tensor * BM.

Local Abbreviation run :=
  (inspect_sample_at BrownianPath_init sdeint_impl analytical_sample_impl).

(** One pass of the plotting loop on rows as long as the time grid. *)
Lemma plot_sample_ok (ts_ e m s a : ndarray) (i : nat) (w : @world BM) :
  first_dim ts_ = first_dim e -> first_dim ts_ = first_dim m ->
  first_dim ts_ = first_dim s -> first_dim ts_ = first_dim a ->
  plot_sample ts_ (i, (e, m, s, a)) tt w
  = (Ok tt, World (globals w) (store w) (next_ref w)
                  (trace w ++ plot_events ts_ i e m s a)).
Proof.
  intros He Hm Hs Ha. unfold plot_sample, plt_plot.
  rewrite !decide_True by assumption.
  unfold bind, plt_figure, plt_legend, plt_savefig, plt_close, emit, plot_events.
  cbn. rewrite <- !app_assoc. reflexivity.
Qed.

Lemma plot_loop_ok (ts_ : ndarray) (ge gm gs ga : nat -> ndarray) :
  (forall i, first_dim ts_ = first_dim (ge i)) ->
  (forall i, first_dim ts_ = first_dim (gm i)) ->
  (forall i, first_dim ts_ = first_dim (gs i)) ->
  (forall i, first_dim ts_ = first_dim (ga i)) ->
  forall (l : list nat) (w : @world BM),
    for_each (map (fun i => (i, (ge i, gm i, gs i, ga i))) l) (plot_sample ts_) tt w
    = (Ok tt, World (globals w) (store w) (next_ref w)
                    (trace w ++ flat_map (fun i => plot_events ts_ i (ge i) (gm i) (gs i) (ga i)) l)).
Proof.
  intros He Hm Hs Ha. induction l as [|i l IH]; intros w.
  - cbn. rewrite app_nil_r. destruct w; reflexivity.
  - cbn [map for_each flat_map]. unfold bind.
    rewrite plot_sample_ok by auto. rewrite IH. cbn.
    rewrite <- app_assoc. reflexivity.
Qed.

Lemma saved_files_plots (ts_ : ndarray) (ge gm gs ga : nat -> ndarray) (l : list nat) :
  saved_files (flat_map (fun i => plot_events ts_ i (ge i) (gm i) (gs i) (ga i)) l)
  = map sample_file l.
Proof.
  unfold saved_files. induction l as [|i l IH]; [reflexivity|].
  cbn [flat_map plot_events app map]. rewrite IH. reflexivity.
Qed.

End SampleRuns.

Lemma zip4_maps {A B} (f1 f2 f3 f4 : A -> B) (l : list A) :
  zip4 (map f1 l) (map f2 l) (map f3 l) (map f4 l)
  = map (fun x => (f1 x, f2 x, f3 x, f4 x)) l.
Proof. induction l as [|x l IH]; simpl; [|rewrite IH]; reflexivity. Qed.

Lemma enumerate_map_seq {B} (g : nat -> B) (n : nat) :
  enumerate (map g (seq 0 n)) = map (fun i => (i, g i)) (seq 0 n).
Proof.
  unfold enumerate. rewrite length_map, length_seq.
  generalize 0%nat. induction n as [|n IH]; intros k; simpl; [|rewrite IH]; reflexivity.
Qed.

(** Squeezing and transposing a trajectory of shape ([steps], [b], [d])
    when one of [b] and [d] is 1 and the other is [n], at least 2. *)
Lemma squeeze_t_trajectory (steps b d n : nat) (t : tensor) :
  (b = 1%nat /\ d = n) \/ (d = 1%nat /\ b = n) ->
  (2 <= n)%nat -> (2 <= steps)%nat -> shape t = [steps; b; d] ->
  tensor_t (squeeze t)
  = Ok (Tensor [n; steps] (transpose_data steps n (data t)) (tdev t)).
Proof.
  intros Hbd Hn Hs Hsh. unfold squeeze, tensor_t. rewrite Hsh. cbn [shape].
  rewrite filter_cons_True by lia.
  destruct Hbd as [[-> ->]|[-> ->]].
  - rewrite filter_cons_False by (intros H; apply H; reflexivity).
    rewrite filter_cons_True by lia. reflexivity.
  - rewrite filter_cons_True by lia.
    rewrite filter_cons_False by (intros H; apply H; reflexivity).
    reflexivity.
Qed.

Section ShapedCalls.
Context {BM : Type}.
Implicit Types w : @world BM.

(** A check of all new events is a check of a call's event and of what
    follows it. *)
Lemma forallb_drop_after (p : event -> bool) (n : nat) (old : list event)
      (e : event) (tr : list event) :
  (n <= length old)%nat ->
  forallb p (drop n ((old ++ [e]) ++ tr)) = true -> p e = true.
Proof.
  intros Hn H.
  rewrite <- app_assoc in H.
  rewrite drop_app_le in H by exact Hn.
  rewrite forallb_app in H. apply andb_prop in H as [_ H].
  cbn in H. apply andb_prop in H as [H _]. exact H.
Qed.

Lemma returns_shape_sdeint sh s y0 ts dt bm method opts r :
  returns_shape sh (EvSdeint s y0 ts dt bm method opts r) = true ->
  exists t, r = Ok t /\ shape t = sh /\ length (data t) = numel sh.
Proof.
  destruct r as [t|e]; cbn; [|discriminate].
  intros H. apply andb_prop in H as [H1 H2].
  apply bool_decide_eq_true in H1, H2. eauto.
Qed.

Lemma returns_shape_analytical sh s y0 ts bm r :
  returns_shape sh (EvAnalyticalSample s y0 ts bm r) = true ->
  exists t, r = Ok t /\ shape t = sh /\ length (data t) = numel sh.
Proof.
  destruct r as [t|e]; cbn; [|discriminate].
  intros H. apply andb_prop in H as [H1 H2].
  apply bool_decide_eq_true in H1, H2. eauto.
Qed.

(** A call to the integrator in a run whose new events all pass the shape
    check returned a trajectory of that shape, and the run goes on. *)
Lemma sdeint_shaped {A} impl s y0 ts dt bm method opts (k : tensor -> @M BM A)
      (sh : list nat) (n : nat) (st : BM) w :
  (forall t, emits (fun _ => True) (k t)) ->
  store w !! bm = Some st -> (n <= length (trace w))%nat ->
  forallb (returns_shape sh)
          (drop n (trace (snd (bind (sdeint impl s y0 ts dt bm method opts) k w))))
  = true ->
  exists t st',
    shape t = sh /\ length (data t) = numel sh /\
    bind (sdeint impl s y0 ts dt bm method opts) k w
    = k t (World (globals w) (<[bm := st']> (store w)) (next_ref w)
                 (trace w ++ [EvSdeint s y0 ts dt bm method opts (Ok t)])).
Proof.
  intros Hk Hst Hn. unfold bind, sdeint. rewrite Hst.
  destruct (impl s y0 ts dt method opts st) as [[t|e] st'].
  - match goal with |- context [k t ?w2] => destruct (Hk t w2) as (tr & Etr & _) end.
    rewrite Etr. cbn [trace]. intros H.
    apply forallb_drop_after in H; [|exact Hn].
    apply returns_shape_sdeint in H as (t' & Ht & Hsh & Hlen).
    injection Ht as <-. eauto.
  - cbn [snd trace]. intros H.
    rewrite <- (app_nil_r (trace w ++ _)) in H.
    apply forallb_drop_after in H; [|exact Hn]. discriminate.
Qed.

Lemma analytical_sample_shaped {A} impl s y0 ts bm (k : tensor -> @M BM A)
      (sh : list nat) (n : nat) (st : BM) w :
  (forall t, emits (fun _ => True) (k t)) ->
  store w !! bm = Some st -> (n <= length (trace w))%nat ->
  forallb (returns_shape sh)
          (drop n (trace (snd (bind (analytical_sample impl s y0 ts bm) k w))))
  = true ->
  exists t st',
    shape t = sh /\ length (data t) = numel sh /\
    bind (analytical_sample impl s y0 ts bm) k w
    = k t (World (globals w) (<[bm := st']> (store w)) (next_ref w)
                 (trace w ++ [EvAnalyticalSample s y0 ts bm (Ok t)])).
Proof.
  intros Hk Hst Hn. unfold bind, analytical_sample. rewrite Hst.
  destruct (impl s y0 ts st) as [[t|e] st'].
  - match goal with |- context [k t ?w2] => destruct (Hk t w2) as (tr & Etr & _) end.
    rewrite Etr. cbn [trace]. intros H.
    apply forallb_drop_after in H; [|exact Hn].
    apply returns_shape_analytical in H as (t' & Ht & Hsh & Hlen).
    injection Ht as <-. eauto.
  - cbn [snd trace]. intros H.
    rewrite <- (app_nil_r (trace w ++ _)) in H.
    apply forallb_drop_after in H; [|exact Hn]. discriminate.
Qed.

End ShapedCalls.

Lemma bind_lift_ok {BM A B} (a : A) (k : A -> @M BM B) (w : world) :
  bind (lift (Ok a)) k w = k a w.
Proof. reflexivity. Qed.

Lemma bind_emit {BM B} (e : event) (k : unit -> @M BM B) (w : world) :
  bind (emit e) k w
  = k tt (World (globals w) (store w) (next_ref w) (trace w ++ [e])).
Proof. reflexivity. Qed.

Lemma saved_files_app (a b : list event) :
  saved_files (a ++ b) = saved_files a ++ saved_files b.
Proof. apply flat_map_app. Qed.

(** The [i]-th of [n] consecutive blocks of length [m]. *)
Lemma slice_blocks (f : nat -> list Q) (m : nat) :
  (forall j, length (f j) = m) ->
  forall (n a i : nat),
    (i < n)%nat ->
    take m (drop (i * m) (flat_map f (seq a n))) = f (a + i)%nat.
Proof.
  intros Hf. induction n as [|n IH]; intros a i Hi; [lia|].
  cbn [seq flat_map]. destruct i as [|i].
  - rewrite Nat.mul_0_l, drop_0, Nat.add_0_r.
    rewrite take_app_length' by (symmetry; apply Hf). reflexivity.
  - replace (S i * m)%nat with (length (f a) + i * m)%nat by (rewrite Hf; lia).
    rewrite drop_app_add'; [|reflexivity].
    rewrite IH by lia. f_equal. lia.
Qed.

(** The rows of the squeezed and transposed trajectory are the paths: of
    the batch samples when there is one dimension, of the dimensions when
    there is one sample. *)
Lemma sample_row_path (steps b d n : nat) (t : tensor) (i : nat) :
  (b = 1%nat /\ d = n) \/ (d = 1%nat /\ b = n) ->
  (2 <= n)%nat -> (i < n)%nat ->
  sample_row steps n t i = plotted_path steps b d t i.
Proof.
  intros Hbd Hn Hi.
  assert (Hrow : sample_row steps n t i
                 = NdArray [steps]
                     (map (fun k : nat => nth (k * n + i) (data t) 0%Q) (seq 0 steps))).
  { unfold sample_row, slice, transpose_data. f_equal.
    cbn [numel foldr]. rewrite Nat.mul_1_r.
    rewrite (slice_blocks _ steps) by
      (first [intros j; rewrite length_map, length_seq; reflexivity | exact Hi]).
    reflexivity. }
  rewrite Hrow. unfold plotted_path, sample_path.
  destruct Hbd as [[-> ->]|[-> ->]].
  - rewrite decide_False by lia. f_equal. apply map_ext. intros k.
    unfold traj_entry. f_equal. lia.
  - rewrite decide_True by reflexivity. f_equal. apply map_ext. intros k.
    unfold traj_entry. f_equal. lia.
Qed.

Lemma flat_map_ext_seq {B} (f g : nat -> list B) (n : nat) :
  (forall i, (i < n)%nat -> f i = g i) ->
  flat_map f (seq 0 n) = flat_map g (seq 0 n).
Proof.
  intros H.
  assert (G : forall l : list nat,
             Forall (fun i => (i < n)%nat) l -> flat_map f l = flat_map g l).
  { induction l as [|i l IH]; intros Hl; [reflexivity|].
    apply Forall_cons in Hl as [Hi Hl]. cbn [flat_map].
    rewrite (H i Hi), (IH Hl). reflexivity. }
  apply G. apply Forall_forall. intros i Hi%list_elem_of_In%in_seq. lia.
Qed.

Section SampleClaims.
Context {BM : Type}.
Variable BrownianPath_init : tensor -> tensor -> BM.
Variable sdeint_impl :
  sde -> tensor -> tensor -> Q -> string -> options -> BM -> result tensor * BM.
Variable analytical_sample_impl :
  sde -> tensor -> tensor -> BM -> result tensor * BM.

Local Abbreviation run :=
  (inspect_sample_at BrownianPath_init sdeint_impl analytical_sample_impl).

(** What follows a service call in [inspect_sample] only appends events. *)
Ltac sample_rest :=
  intros; unfold makedirs_if_not_found;
  repeat (cbv zeta; emits_step);
  try (apply emits_plot_sample; intros []; exact I);
  try (intros; exact I).

(** C3, as the code has it: when one of batch size and dimensionality is 1
    and the other is [n], at least 2, on a grid of at least two points, a
    run in which every service call returns a trajectory of shape (steps,
    batch size, dimensionality) returns; after the four service calls it
    creates the plot directory and draws exactly [n] figures, in the order
    of the indices 0, 1, ..., n - 1.  The figure of index [i] overlays,
    against the time grid, the four curves labelled euler, milstein, srk
    and analytical, each being the path of batch sample [i] in the
    trajectory the service returned when the dimensionality is 1 (the case
    of the source), and the path of dimension [i] when the batch size is 1;
    it is saved under the name [i] in the plot directory.  So exactly [n]
    files are saved: one per batch sample when the dimensionality is 1, one
    per dimension when the batch size is 1. *)
Theorem sample_saves_one_file_per_row (b d n steps : nat) (dev : device)
        (w : @world BM) :
  globals w !! "device" = Some (VDevice dev) ->
  (b = 1%nat /\ d = n) \/ (d = 1%nat /\ b = n) ->
  (2 <= n)%nat -> (2 <= steps)%nat ->
  forallb (returns_shape [steps; b; d])
          (drop (length (trace w)) (trace (snd (run b d steps w)))) = true ->
  exists (t0 w0 t1 t2 t3 t4 : tensor),
    fst (run b d steps w) = Ok tt /\
    drop (length (trace w)) (trace (snd (run b d steps w)))
    = EvBrownianPath (next_ref w) t0 w0
      :: EvSdeint (Ex2 d dev) (sample_y0 dev b d) (sample_ts dev steps) (1 # 10)
                  (next_ref w) "euler" None (Ok t1)
      :: EvSdeint (Ex2 d dev) (sample_y0 dev b d) (sample_ts dev steps) (1 # 10)
                  (next_ref w) "milstein" None (Ok t2)
      :: EvSdeint (Ex2 d dev) (sample_y0 dev b d) (sample_ts dev steps) (1 # 10)
                  (next_ref w) "srk" srk_options (Ok t3)
      :: EvAnalyticalSample (Ex2 d dev) (sample_y0 dev b d) (sample_ts dev steps)
                            (next_ref w) (Ok t4)
      :: EvMakedirs img_dir
      :: flat_map (fun i : nat =>
                     plot_events (to_numpy (sample_ts dev steps)) i
                                 (plotted_path steps b d t1 i)
                                 (plotted_path steps b d t2 i)
                                 (plotted_path steps b d t3 i)
                                 (plotted_path steps b d t4 i))
                  (seq 0 n) /\
    saved_files (drop (length (trace w)) (trace (snd (run b d steps w))))
    = map sample_file (seq 0 n) /\
    length (saved_files (drop (length (trace w)) (trace (snd (run b d steps w)))))
    = n.
Proof.
  intros Hdev Hbd Hn Hs Hshape.
  remember (run b d steps w) as R eqn:ER.
  unfold inspect_sample_at in ER.
  rewrite (bind_read_device dev) in ER by exact Hdev. cbv beta zeta in ER.
  assert (Ht0 : tensor_index (tensor_to dev (torch_linspace 0 5 steps)) 0
                = Ok (Tensor [] (slice [] (data (torch_linspace 0 5 steps)) 0) dev)).
  { unfold tensor_index. cbn [shape tensor_to torch_linspace].
    rewrite decide_True by lia. reflexivity. }
  rewrite Ht0, bind_lift_ok in ER.
  rewrite (bind_read_device dev) in ER by exact Hdev. cbv beta zeta in ER.
  rewrite (bind_read_device dev) in ER by exact Hdev. cbv beta zeta in ER.
  unfold bind at 1, BrownianPath at 1 in ER. cbv beta iota zeta in ER.
  pose proof Hshape as Hcall. rewrite ER in Hcall.
  eapply sdeint_shaped in Hcall;
    [ | sample_rest | cbn [store]; apply lookup_insert_eq
      | cbn [trace]; rewrite length_app; lia ].
  destruct Hcall as (t1 & st1 & Sh1 & L1 & E1).
  rewrite E1 in ER. clear E1.
  pose proof Hshape as Hcall. rewrite ER in Hcall.
  eapply sdeint_shaped in Hcall;
    [ | sample_rest | cbn [store]; apply lookup_insert_eq
      | cbn [trace]; rewrite !length_app; lia ].
  destruct Hcall as (t2 & st2 & Sh2 & L2 & E2).
  rewrite E2 in ER. clear E2.
  pose proof Hshape as Hcall. rewrite ER in Hcall.
  eapply sdeint_shaped in Hcall;
    [ | sample_rest | cbn [store]; apply lookup_insert_eq
      | cbn [trace]; rewrite !length_app; lia ].
  destruct Hcall as (t3 & st3 & Sh3 & L3 & E3).
  rewrite E3 in ER. clear E3.
  pose proof Hshape as Hcall. rewrite ER in Hcall.
  eapply analytical_sample_shaped in Hcall;
    [ | sample_rest | cbn [store]; apply lookup_insert_eq
      | cbn [trace]; rewrite !length_app; lia ].
  destruct Hcall as (t4 & st4 & Sh4 & L4 & E4).
  rewrite E4 in ER. clear E4 Hshape.
  rewrite (squeeze_t_trajectory steps b d n t1), (squeeze_t_trajectory steps b d n t2),
    (squeeze_t_trajectory steps b d n t3), (squeeze_t_trajectory steps b d n t4) in ER
    by assumption.
  rewrite !bind_lift_ok in ER. unfold makedirs_if_not_found in ER.
  rewrite bind_emit in ER.
  change (ndarray_iter (to_numpy (Tensor [n; steps] (transpose_data steps n (data t1)) (tdev t1))))
    with (Ok (map (sample_row steps n t1) (seq 0 n))) in ER.
  change (ndarray_iter (to_numpy (Tensor [n; steps] (transpose_data steps n (data t2)) (tdev t2))))
    with (Ok (map (sample_row steps n t2) (seq 0 n))) in ER.
  change (ndarray_iter (to_numpy (Tensor [n; steps] (transpose_data steps n (data t3)) (tdev t3))))
    with (Ok (map (sample_row steps n t3) (seq 0 n))) in ER.
  change (ndarray_iter (to_numpy (Tensor [n; steps] (transpose_data steps n (data t4)) (tdev t4))))
    with (Ok (map (sample_row steps n t4) (seq 0 n))) in ER.
  rewrite !bind_lift_ok in ER.
  rewrite zip4_maps, enumerate_map_seq in ER.
  rewrite (plot_loop_ok _ (sample_row steps n t1) (sample_row steps n t2)
                          (sample_row steps n t3) (sample_row steps n t4)) in ER
    by (intros; reflexivity).
  cbn [globals store next_ref trace] in ER.
  rewrite (flat_map_ext_seq _
             (fun i : nat =>
                plot_events (to_numpy (sample_ts dev steps)) i
                            (plotted_path steps b d t1 i) (plotted_path steps b d t2 i)
                            (plotted_path steps b d t3 i) (plotted_path steps b d t4 i)))
    in ER
    by (intros i Hi; rewrite !(sample_row_path steps b d n) by assumption;
        reflexivity).
  subst R. cbn [fst snd trace].
  eexists _, _, t1, t2, t3, t4.
  split; [reflexivity|].
  rewrite <- !app_assoc, drop_app_length.
  split; [reflexivity|].
  cbn [app]. unfold saved_files at 1 2. cbn [flat_map app].
  fold (saved_files (flat_map
         (fun i : nat =>
            plot_events (to_numpy (sample_ts dev steps)) i
                        (plotted_path steps b d t1 i) (plotted_path steps b d t2 i)
                        (plotted_path steps b d t3 i) (plotted_path steps b d t4 i))
         (seq 0 n))).
  rewrite saved_files_plots.
  split; [reflexivity|].
  rewrite length_map, length_seq. reflexivity.
Qed.

End SampleClaims.

(** The theorem of C3 on the run of the source, batch size 32,
    dimensionality 1 and a grid of 100 points, with the reference
    services. *)
Lemma sample_saves_one_file_per_row_witness :
  exists (t0 w0 t1 t2 t3 t4 : tensor),
    fst (ref_sample_run 32 1 100) = Ok tt /\
    drop (length (trace main_world)) (trace (snd (ref_sample_run 32 1 100)))
    = EvBrownianPath (next_ref main_world) t0 w0
      :: EvSdeint (Ex2 1 Cpu) (sample_y0 Cpu 32 1) (sample_ts Cpu 100) (1 # 10)
                  (next_ref main_world) "euler" None (Ok t1)
      :: EvSdeint (Ex2 1 Cpu) (sample_y0 Cpu 32 1) (sample_ts Cpu 100) (1 # 10)
                  (next_ref main_world) "milstein" None (Ok t2)
      :: EvSdeint (Ex2 1 Cpu) (sample_y0 Cpu 32 1) (sample_ts Cpu 100) (1 # 10)
                  (next_ref main_world) "srk" srk_options (Ok t3)
      :: EvAnalyticalSample (Ex2 1 Cpu) (sample_y0 Cpu 32 1) (sample_ts Cpu 100)
                            (next_ref main_world) (Ok t4)
      :: EvMakedirs img_dir
      :: flat_map (fun i : nat =>
                     plot_events (to_numpy (sample_ts Cpu 100)) i
                                 (plotted_path 100 32 1 t1 i)
                                 (plotted_path 100 32 1 t2 i)
                                 (plotted_path 100 32 1 t3 i)
                                 (plotted_path 100 32 1 t4 i))
                  (seq 0 32) /\
    saved_files (drop (length (trace main_world)) (trace (snd (ref_sample_run 32 1 100))))
    = map sample_file (seq 0 32) /\
    length (saved_files (drop (length (trace main_world))
                              (trace (snd (ref_sample_run 32 1 100)))))
    = 32%nat.
Proof.
  apply (sample_saves_one_file_per_row ref_bm_init ref_sdeint
           ref_analytical 32 1 32 100 Cpu main_world).
  - reflexivity.
  - right. split; reflexivity.
  - lia.
  - lia.
  - vm_compute. reflexivity.
Defined.

(** C3, counterexample: [inspect_sample] as the source has it (batch size
    32, dimensionality 1), with services that return trajectories of shape
    (100, 32, 1), returns and saves 32 files, one per batch sample, not one
    per dimension; and with batch size 1 and dimensionality 1 the rows
    degenerate to scalars, the first [plt.plot] raises and no file is
    saved. *)
Lemma sample_files_follow_batch_size :
  fst (inspect_sample ref_bm_init ref_sdeint ref_analytical main_world) = Ok tt /\
  saved_files (trace (snd (inspect_sample ref_bm_init ref_sdeint ref_analytical
                                          main_world)))
  = map sample_file (seq 0 32) /\
  length (saved_files (trace (snd (inspect_sample ref_bm_init ref_sdeint
                                                  ref_analytical main_world))))
  <> 1%nat /\
  fst (ref_sample_run 1 1 100)
  = Raise (ValueError "x and y must have same first dimension") /\
  saved_files (trace (snd (ref_sample_run 1 1 100))) = [].
Proof.
  split; [vm_compute; reflexivity|].
  split; [vm_compute; reflexivity|].
  split; [vm_compute; discriminate|].
  split; vm_compute; reflexivity.
Qed.

(** * Calling the experiments without the main block *)

Section ModuleClaims.
Context {BM : Type}.
Variable cuda_is_available : bool.
Variable BrownianPath_init : tensor -> tensor -> BM.
Variable sdeint_impl :
  sde -> tensor -> tensor -> Q -> string -> options -> BM -> result tensor * BM.
Variable analytical_sample_impl :
  sde -> tensor -> tensor -> BM -> result tensor * BM.
Variable linregress_impl :
  list xfloat -> list xfloat -> result (xfloat * xfloat * xfloat * xfloat * xfloat).

Lemma module_names_not_device :
  Forall (fun b : string * pyval => fst b <> "device") module_names.
Proof. repeat constructor; discriminate. Qed.

(** Binding names other than [device] leaves [device] as it was and
    touches nothing else. *)
Lemma bind_names_keeps_device (names : list (string * pyval)) :
  Forall (fun b : string * pyval => fst b <> "device") names ->
  forall w : @world BM,
    exists g : gmap string pyval,
      for_each names (fun b _ => set_global (fst b) (snd b)) tt w
      = (Ok tt, World g (store w) (next_ref w) (trace w)) /\
      g !! "device" = globals w !! "device".
Proof.
  induction 1 as [|[name v] names Hne _ IH]; intros w.
  - exists (globals w). destruct w; auto.
  - cbn [for_each]. unfold bind, set_global at 1. cbn [fst snd].
    destruct (IH (World (<[name := v]> (globals w)) (store w) (next_ref w) (trace w)))
      as (g & E & Hg).
    exists g. split; [exact E|].
    rewrite Hg. cbn [globals]. apply lookup_insert_ne. exact Hne.
Qed.

(** C9: when the module is executed under a name other than ["__main__"]
    in a namespace that does not bind [device], its execution returns
    without binding [device] and without any effect on the trace; after
    it, every call of [inspect_sample] and of [inspect_strong_order] raises
    [NameError] for [device] and leaves the world as it was: no service is
    called and nothing is written. *)
Theorem device_unbound_outside_main (dunder_name : string) (w0 : @world BM) :
  dunder_name <> "__main__" ->
  globals w0 !! "device" = None ->
  exists w : @world BM,
    run_module cuda_is_available BrownianPath_init sdeint_impl
               analytical_sample_impl linregress_impl dunder_name w0
    = (Ok tt, w) /\
    trace w = trace w0 /\
    globals w !! "device" = None /\
    inspect_sample BrownianPath_init sdeint_impl analytical_sample_impl w
    = (Raise (NameError "device"), w) /\
    inspect_strong_order BrownianPath_init sdeint_impl analytical_sample_impl
                         linregress_impl w
    = (Raise (NameError "device"), w).
Proof.
  intros Hname Hdev. unfold run_module.
  destruct (bind_names_keeps_device module_names module_names_not_device w0)
    as (g & E & Hg).
  exists (World g (store w0) (next_ref w0) (trace w0)).
  split.
  - unfold bind. rewrite E.
    apply String.eqb_neq in Hname. rewrite Hname. reflexivity.
  - rewrite Hdev in Hg. cbn [trace globals].
    do 2 (split; [first [reflexivity | exact Hg]|]).
    unfold inspect_sample, inspect_sample_at, inspect_strong_order,
      inspect_strong_order_at, bind, read_device.
    cbn [globals]. rewrite Hg. split; reflexivity.
Qed.

End ModuleClaims.

(** The theorem of C9 for the module imported as
    [diagnostics.srk_diagonal] into an empty namespace. *)
Lemma device_unbound_outside_main_witness :
  exists w : @world nat,
    run_module false ref_bm_init ref_sdeint ref_analytical ols_linregress
               "diagnostics.srk_diagonal" (World ∅ ∅ 0 [])
    = (Ok tt, w) /\
    trace w = trace (World (BM:=nat) ∅ ∅ 0 []) /\
    globals w !! "device" = None /\
    inspect_sample ref_bm_init ref_sdeint ref_analytical w
    = (Raise (NameError "device"), w) /\
    inspect_strong_order ref_bm_init ref_sdeint ref_analytical ols_linregress w
    = (Raise (NameError "device"), w).
Proof.
  apply (device_unbound_outside_main false ref_bm_init ref_sdeint ref_analytical
           ols_linregress "diagnostics.srk_diagonal" (World ∅ ∅ 0 [])).
  - discriminate.
  - reflexivity.
Defined.

(** * Which files a run saves *)

Lemma saved_files_nothing (tr : list event) :
  Forall saves_nothing tr -> saved_files tr = [].
Proof.
  unfold saved_files. induction 1 as [|e tr He _ IH]; [reflexivity|].
  cbn [flat_map]. rewrite IH. destruct e; try reflexivity. destruct He.
Qed.

Section SavedFiles.
Context {BM : Type}.

Lemma saves_on_return_bind {A B} (files : list string) (c : @M BM A) (k : A -> M B) :
  emits saves_nothing c -> (forall a, saves_on_return files (k a)) ->
  saves_on_return files (bind c k).
Proof.
  intros Hc Hk w. unfold bind.
  destruct (Hc w) as (tr1 & E1 & F1).
  destruct (c w) as [[a|e] w1]; cbn [fst snd] in *.
  - destruct (Hk a w1) as (tr2 & E2 & S2).
    exists (tr1 ++ tr2). split.
    + rewrite E2, E1. symmetry. apply app_assoc.
    + rewrite saved_files_app, (saved_files_nothing tr1 F1). exact S2.
  - exists tr1. split; [exact E1 | apply saved_files_nothing, F1].
Qed.

Lemma saves_on_return_savefig (path : string) :
  saves_on_return [path] (@bind BM _ _ (plt_savefig path) (fun _ => plt_close)).
Proof. intros w. exists [EvSavefig path; EvClose]. split; [|reflexivity].
  cbn. rewrite <- app_assoc. reflexivity.
Qed.

Lemma saves_consecutive_bind {A B} (a : nat) (c : @M BM A) (k : A -> M B) :
  emits saves_nothing c -> (forall x, saves_consecutive a (k x)) ->
  saves_consecutive a (bind c k).
Proof.
  intros Hc Hk w. unfold bind.
  destruct (Hc w) as (tr1 & E1 & F1).
  destruct (c w) as [[x|e] w1]; cbn [fst snd] in *.
  - destruct (Hk x w1) as (tr2 & n & E2 & S2).
    exists (tr1 ++ tr2), n. split.
    + rewrite E2, E1. symmetry. apply app_assoc.
    + rewrite saved_files_app, (saved_files_nothing tr1 F1). exact S2.
  - exists tr1, 0%nat. split; [exact E1 | apply saved_files_nothing, F1].
Qed.

(** One pass of the plotting loop saves its file exactly when it returns. *)
Lemma plot_sample_saves (ts_ : ndarray) (i : nat)
      (x : ndarray * ndarray * ndarray * ndarray) :
  saves_on_return [sample_file i] (@plot_sample BM ts_ (i, x) tt).
Proof.
  destruct x as [[[e m] s] a]. unfold plot_sample, plt_figure, plt_legend.
  repeat (apply saves_on_return_bind;
          [ first [ apply emits_emit; exact I | apply emits_plt_plot; exact I ]
          | intros _ ]).
  apply saves_on_return_savefig.
Qed.

Lemma plot_loop_saves_consecutive (ts_ : ndarray) :
  forall (items : list (ndarray * ndarray * ndarray * ndarray)) (a : nat),
    saves_consecutive a
      (@for_each BM _ _ (zip_with pair (seq a (length items)) items)
                 (plot_sample ts_) tt).
Proof.
  induction items as [|x items IH]; intros a w.
  - exists [], 0%nat. cbn. split; [symmetry; apply app_nil_r | reflexivity].
  - cbn [length seq zip_with for_each]. unfold bind.
    destruct (plot_sample_saves ts_ a x w) as (tr1 & E1 & S1).
    destruct (plot_sample ts_ (a, x) tt w) as [[[]|e] w1]; cbn [fst snd] in *.
    + destruct (IH (S a) w1) as (tr2 & k & E2 & S2).
      exists (tr1 ++ tr2), (S k). split.
      * rewrite E2, E1. symmetry. apply app_assoc.
      * rewrite saved_files_app, S1, S2. reflexivity.
    + exists tr1, 0%nat. split; assumption.
Qed.

End SavedFiles.

Section SavedFilesOfRuns.
Context {BM : Type}.
Variable BrownianPath_init : tensor -> tensor -> BM.
Variable sdeint_impl :
  sde -> tensor -> tensor -> Q -> string -> options -> BM -> result tensor * BM.
Variable analytical_sample_impl :
  sde -> tensor -> tensor -> BM -> result tensor * BM.
Variable linregress_impl :
  list xfloat -> list xfloat -> result (xfloat * xfloat * xfloat * xfloat * xfloat).

(** A step of a program that saves nothing. *)
Ltac quiet_step :=
  first [ apply emits_read_device | apply emits_lift | apply emits_del_last
        | apply emits_BrownianPath; intros; exact I
        | apply emits_sdeint; intros; exact I
        | apply emits_analytical_sample; intros; exact I
        | apply emits_linregress; exact I
        | apply emits_plt_plot; exact I
        | apply emits_emit; exact I ].

(** X5: whatever the services return and wherever the run stops, the files
    [inspect_sample] saves are those of the indices 0, 1, ..., k - 1 for
    some k, in this order: no index is skipped and none is saved twice. *)
Theorem sample_files_are_consecutive (batch_size d steps : nat) (w : @world BM) :
  exists (tr : list event) (k : nat),
    trace (snd (inspect_sample_at BrownianPath_init sdeint_impl
                                  analytical_sample_impl batch_size d steps w))
    = trace w ++ tr /\
    saved_files tr = map sample_file (seq 0 k).
Proof.
  revert w. unfold inspect_sample_at, makedirs_if_not_found.
  repeat (cbv zeta; apply saves_consecutive_bind; [quiet_step | intros ?]).
  apply plot_loop_saves_consecutive.
Qed.

(** X6: whatever the services return, [inspect_strong_order] saves exactly
    one file, named [rate] under the plot directory, when it returns, and
    no file at all when it raises. *)
Theorem rate_file_saved_iff_returns (batch_size d : nat) (w : @world BM) :
  exists tr : list event,
    trace (snd (inspect_strong_order_at BrownianPath_init sdeint_impl
                                        analytical_sample_impl linregress_impl
                                        batch_size d w))
    = trace w ++ tr /\
    saved_files tr
    = match fst (inspect_strong_order_at BrownianPath_init sdeint_impl
                                         analytical_sample_impl linregress_impl
                                         batch_size d w) with
      | Ok _ => [rate_file]
      | Raise _ => []
      end.
Proof.
  revert w. unfold inspect_strong_order_at, makedirs_if_not_found, plt_figure,
    plt_xscale, plt_yscale, plt_legend.
  repeat (cbv zeta;
          first [ apply saves_on_return_savefig
                | apply saves_on_return_bind; [|intros ?] ]);
    try quiet_step.
  apply emits_for_each. intros dt v. unfold strong_order_step.
  repeat (cbv zeta; first [quiet_step | apply emits_ret | apply emits_bind; [|intros ?]]).
Qed.

End SavedFilesOfRuns.

(** * The names of the saved files *)

Lemma to_uint_nonnil (n : nat) : Nat.to_uint n <> Decimal.Nil.
Proof.
  rewrite <- (Unsigned.of_to n) at 1. rewrite Unsigned.to_of.
  apply unorm_nonnil.
Qed.

Lemma py_str_inj (i j : nat) : py_str i = py_str j -> i = j.
Proof.
  unfold py_str. intros H.
  apply (f_equal NilZero.uint_of_string) in H.
  rewrite !NilZero.usu in H by apply to_uint_nonnil.
  injection H as H. apply (f_equal Nat.of_uint) in H.
  rewrite !Unsigned.of_to in H. exact H.
Qed.

Lemma py_str_not_rate (i : nat) : py_str i <> "rate".
Proof.
  unfold py_str. intros H.
  apply (f_equal NilZero.uint_of_string) in H.
  rewrite NilZero.usu in H by apply to_uint_nonnil.
  discriminate.
Qed.

Lemma sample_file_suffix (i : nat) (s : string) :
  sample_file i = os_path_join [img_dir; s] -> py_str i = s.
Proof. unfold sample_file. cbn. intros H. injection H as H. exact H. Qed.

(** X8: the files of the path-comparison experiment for any number of
    indices and the file of the convergence-order experiment, which go to
    the same directory, have pairwise distinct names: no plot overwrites
    another. *)
Theorem saved_names_distinct (n : nat) :
  NoDup (map sample_file (seq 0 n) ++ [rate_file]).
Proof.
  apply NoDup_app. split; [|split].
  - apply NoDup_fmap_2; [|apply NoDup_seq].
    intros i j H. apply sample_file_suffix in H. apply py_str_inj. exact H.
  - intros x Hx Hr. apply list_elem_of_fmap in Hx as (i & -> & _).
    apply list_elem_of_singleton in Hr.
    apply sample_file_suffix in Hr. exact (py_str_not_rate i Hr).
  - apply NoDup_singleton.
Qed.


(** * The calls of the path-comparison experiment *)


Lemma linspace_first (steps : nat) (dev : device) :
  (0 < steps)%nat ->
  exists q : Q,
    tensor_index (tensor_to dev (torch_linspace 0 5 steps)) 0
    = Ok (Tensor [] [q] dev) /\ (q == 0)%Q.
Proof.
  intros Hs. destruct steps as [|n]; [lia|].
  eexists. split.
  - unfold tensor_index. cbn [shape tensor_to torch_linspace].
    rewrite decide_True by lia. reflexivity.
  - cbn. unfold Qdiv. rewrite Qmult_0_l. reflexivity.
Qed.

Section SampleCalls.
Context {BM : Type}.
Variable BrownianPath_init : tensor -> tensor -> BM.
Variable sdeint_impl :
  sde -> tensor -> tensor -> Q -> string -> options -> BM -> result tensor * BM.
Variable analytical_sample_impl :
  sde -> tensor -> tensor -> BM -> result tensor * BM.

Local Abbreviation run :=
  (inspect_sample_at BrownianPath_init sdeint_impl analytical_sample_impl).


End SampleCalls.


(** * Programs that rebind no name and create no object *)

Section Steady.
Context {BM : Type}.

Lemma steady_ret {A} (a : A) : steady (@ret BM A a).
Proof. intros w. split; reflexivity. Qed.

Lemma steady_raise {A} (e : exn) : steady (@raise BM A e).
Proof. intros w. split; reflexivity. Qed.

Lemma steady_lift {A} (r : result A) : steady (@lift BM A r).
Proof. intros w. split; reflexivity. Qed.

Lemma steady_emit (e : event) : steady (@emit BM e).
Proof. intros w. split; reflexivity. Qed.

Lemma steady_read_device : steady (@read_device BM).
Proof.
  intros w. unfold read_device.
  destruct (globals w !! "device") as [[]|]; split; reflexivity.
Qed.

Lemma steady_bind {A B} (c : @M BM A) (k : A -> M B) :
  steady c -> (forall a, steady (k a)) -> steady (bind c k).
Proof.
  intros Hc Hk w. unfold bind. destruct (Hc w) as [G N].
  destruct (c w) as [[a|e] w1]; cbn [snd] in *.
  - destruct (Hk a w1) as [G' N']. split; congruence.
  - split; assumption.
Qed.

Lemma steady_for_each {A S} (body : A -> S -> @M BM S) (xs : list A) :
  (forall x s, steady (body x s)) -> forall s, steady (for_each xs body s).
Proof.
  intros Hbody. induction xs as [|x xs IH]; intros s; cbn [for_each].
  - apply steady_ret.
  - apply steady_bind; [apply Hbody | exact IH].
Qed.

Lemma steady_sdeint impl s y0 ts dt bm method opts :
  steady (@sdeint BM impl s y0 ts dt bm method opts).
Proof.
  intros w. unfold sdeint. destruct (store w !! bm) as [b|]; [|split; reflexivity].
  destruct (impl s y0 ts dt method opts b) as [r b']. split; reflexivity.
Qed.

Lemma steady_analytical_sample impl s y0 ts bm :
  steady (@analytical_sample BM impl s y0 ts bm).
Proof.
  intros w. unfold analytical_sample.
  destruct (store w !! bm) as [b|]; [|split; reflexivity].
  destruct (impl s y0 ts b) as [r b']. split; reflexivity.
Qed.

Lemma steady_linregress impl xs ys : steady (@linregress BM impl xs ys).
Proof.
  unfold linregress. apply steady_bind; [apply steady_emit | intros _; apply steady_lift].
Qed.

Lemma steady_plt_plot xs ys label : steady (@plt_plot BM xs ys label).
Proof.
  unfold plt_plot. case_decide; [apply steady_emit | apply steady_raise].
Qed.

Lemma steady_del_last v : steady (@del_last BM v).
Proof.
  unfold del_last. destruct (last_mse_ v); [apply steady_ret | apply steady_raise].
Qed.

End Steady.

Ltac steady_step :=
  first
    [ apply steady_ret | apply steady_raise | apply steady_lift
    | apply steady_read_device | apply steady_del_last
    | apply steady_sdeint | apply steady_analytical_sample
    | apply steady_linregress | apply steady_plt_plot | apply steady_emit
    | apply steady_bind; [|intros ?]
    | apply steady_for_each; intros ? ? ].

Lemma steady_plot_sample {BM : Type} ts_ it u : steady (@plot_sample BM ts_ it u).
Proof.
  destruct it as [i [[[e m] s] a]]. unfold plot_sample.
  unfold plt_figure, plt_legend, plt_savefig, plt_close.
  repeat steady_step.
Qed.

Lemma same_inputs_uses_bm s y0 ts dt r (e : event) :
  same_inputs s y0 ts dt r e -> uses_bm r e.
Proof. destruct e; cbn; tauto. Qed.

Lemma shares_inputs_uses_bm s y0 ts r (e : event) :
  shares_inputs s y0 ts r e -> uses_bm r e.
Proof. destruct e; cbn; tauto. Qed.

Lemma same_inputs_on_device d dev y0 ts dt r (e : event) :
  tdev y0 = dev -> tdev ts = dev ->
  same_inputs (Ex2 d dev) y0 ts dt r e -> on_device dev e.
Proof.
  intros Hy Ht. destruct e; cbn; try tauto.
  - intros (-> & -> & -> & _). auto.
  - intros (-> & -> & -> & _). auto.
Qed.

Lemma shares_inputs_on_device d dev y0 ts r (e : event) :
  tdev y0 = dev -> tdev ts = dev ->
  shares_inputs (Ex2 d dev) y0 ts r e -> on_device dev e.
Proof.
  intros Hy Ht. destruct e; cbn; try tauto.
  - intros (-> & -> & -> & _). auto.
  - intros (-> & -> & -> & _). auto.
Qed.

Section Prefixes.
Context {BM : Type}.
Variable BrownianPath_init : tensor -> tensor -> BM.
Variable sdeint_impl :
  sde -> tensor -> tensor -> Q -> string -> options -> BM -> result tensor * BM.
Variable analytical_sample_impl :
  sde -> tensor -> tensor -> BM -> result tensor * BM.
Variable linregress_impl :
  list xfloat -> list xfloat -> result (xfloat * xfloat * xfloat * xfloat * xfloat).

(** [inspect_sample] up to the creation of its Brownian path, and what
    every later event is like. *)
Lemma sample_prefix (b d steps : nat) (dev : device) (w : @world BM) :
  globals w !! "device" = Some (VDevice dev) ->
  (0 < steps)%nat ->
  exists (tr : list event) (q : Q),
    (q == 0)%Q /\
    trace (snd (inspect_sample_at BrownianPath_init sdeint_impl
                                  analytical_sample_impl b d steps w))
    = trace w ++ EvBrownianPath (next_ref w) (Tensor [] [q] dev)
                                (Tensor [b; d] (replicate (b * d) 0%Q) dev) :: tr /\
    Forall (same_inputs (Ex2 d dev) (sample_y0 dev b d) (sample_ts dev steps)
                        (1 # 10) (next_ref w)) tr /\
    globals (snd (inspect_sample_at BrownianPath_init sdeint_impl
                                    analytical_sample_impl b d steps w))
    = globals w /\
    next_ref (snd (inspect_sample_at BrownianPath_init sdeint_impl
                                     analytical_sample_impl b d steps w))
    = S (next_ref w).
Proof.
  intros Hdev Hs.
  destruct (linspace_first steps dev Hs) as (q & Ht0 & Hq).
  unfold inspect_sample_at.
  rewrite (bind_read_device dev) by exact Hdev. cbv beta zeta.
  rewrite Ht0, bind_lift_ok.
  rewrite (bind_read_device dev) by exact Hdev. cbv beta zeta.
  rewrite (bind_read_device dev) by exact Hdev. cbv beta zeta.
  unfold bind at 1, BrownianPath at 1. cbv beta iota zeta.
  rewrite zeros_like_ones.
  match goal with
  | |- context [snd (?c ?w5)] =>
    assert (Hrest : emits (same_inputs (Ex2 d dev) (sample_y0 dev b d)
                                       (sample_ts dev steps) (1 # 10) (next_ref w)) c);
      [|assert (Hst : steady c);
        [|destruct (Hrest w5) as (tr & Etr & Ftr); destruct (Hst w5) as [G N]]]
  end.
  { unfold makedirs_if_not_found.
    repeat (cbv zeta; emits_step);
      try (apply emits_plot_sample; intros []; exact I);
      try (intros; exact I);
      cbn; repeat split; reflexivity. }
  { unfold makedirs_if_not_found.
    repeat (cbv zeta; steady_step); apply steady_plot_sample. }
  exists tr, q. split; [exact Hq|].
  split; [rewrite Etr; cbn [trace]; rewrite <- app_assoc; reflexivity|].
  split; [exact Ftr|]. split; [exact G | exact N].
Qed.

(** [inspect_strong_order] up to the creation of its Brownian path, and
    what every later event is like. *)
Lemma strong_order_prefix_inputs (b d : nat) (dev : device) (w : @world BM) :
  globals w !! "device" = Some (VDevice dev) ->
  exists tr : list event,
    trace (snd (inspect_strong_order_at BrownianPath_init sdeint_impl
                                        analytical_sample_impl linregress_impl b d w))
    = trace w ++ EvBrownianPath (next_ref w) (Tensor [] [0%Q] dev)
                                (Tensor [b; d] (replicate (b * d) 0%Q) dev) :: tr /\
    Forall (shares_inputs (Ex2 d dev) (so_y0 dev b d) (so_ts dev) (next_ref w)) tr /\
    globals (snd (inspect_strong_order_at BrownianPath_init sdeint_impl
                                          analytical_sample_impl linregress_impl b d w))
    = globals w.
Proof.
  intros Hdev. unfold inspect_strong_order_at.
  rewrite (bind_read_device dev) by exact Hdev. cbv beta zeta.
  change (unpack2 (tensor_to dev (torch_tensor [0; 5]%Q)))
    with (Ok (Tensor [] [0%Q] dev, Tensor [] [5%Q] dev)).
  rewrite bind_lift_ok. cbn [fst].
  rewrite (bind_read_device dev) by exact Hdev. cbv beta zeta.
  rewrite (bind_read_device dev) by exact Hdev. cbv beta zeta.
  unfold bind at 1, BrownianPath at 1. cbv beta iota zeta.
  rewrite zeros_like_ones.
  match goal with
  | |- context [snd (?c ?w5)] =>
    assert (Hrest : emits (shares_inputs (Ex2 d dev) (so_y0 dev b d) (so_ts dev)
                                         (next_ref w)) c);
      [|assert (Hst : steady c);
        [|destruct (Hrest w5) as (tr & Etr & Ftr); destruct (Hst w5) as [G N]]]
  end.
  { unfold makedirs_if_not_found, plt_figure, plt_xscale, plt_yscale,
      plt_legend, plt_savefig, plt_close.
    repeat (cbv zeta; unfold strong_order_step; emits_step);
      try (intros; exact I);
      cbn; repeat split; reflexivity. }
  { unfold makedirs_if_not_found, plt_figure, plt_xscale, plt_yscale,
      plt_legend, plt_savefig, plt_close.
    repeat (cbv zeta; unfold strong_order_step; steady_step). }
  exists tr.
  split; [rewrite Etr; cbn [trace]; rewrite <- app_assoc; reflexivity|].
  split; [exact Ftr | exact G].
Qed.

End Prefixes.

(** * The main block *)

Lemma bind_set_global {BM B} (name : string) (v : pyval) (k : unit -> @M BM B)
      (w : world) :
  bind (set_global name v) k w
  = k tt (World (<[name := v]> (globals w)) (store w) (next_ref w) (trace w)).
Proof. reflexivity. Qed.

Section MainBlock.
Context {BM : Type}.
Variable cuda_is_available : bool.
Variable BrownianPath_init : tensor -> tensor -> BM.
Variable sdeint_impl :
  sde -> tensor -> tensor -> Q -> string -> options -> BM -> result tensor * BM.
Variable analytical_sample_impl :
  sde -> tensor -> tensor -> BM -> result tensor * BM.
Variable linregress_impl :
  list xfloat -> list xfloat -> result (xfloat * xfloat * xfloat * xfloat * xfloat).

Local Abbreviation main :=
  (run_module cuda_is_available BrownianPath_init sdeint_impl
              analytical_sample_impl linregress_impl "__main__").
Local Abbreviation sample :=
  (inspect_sample BrownianPath_init sdeint_impl analytical_sample_impl).
Local Abbreviation strong_order :=
  (inspect_strong_order BrownianPath_init sdeint_impl analytical_sample_impl
                        linregress_impl).

(** The main block up to the first experiment. *)
Lemma main_configures (w0 : @world BM) :
  exists g : gmap string pyval,
    g !! "device" = Some (VDevice (torch_device cuda_is_available)) /\
    main w0
    = bind sample (fun _ => strong_order)
           (World g (store w0) (next_ref w0)
                  (trace w0 ++ [EvSetDefaultDtype "float64"; EvManualSeed 0])).
Proof.
  unfold run_module.
  assert (Hnames : exists g0 : gmap string pyval,
             for_each module_names (fun b _ => set_global (fst b) (snd b)) tt w0
             = (Ok tt, World g0 (store w0) (next_ref w0) (trace w0))).
  { generalize module_names. intros names. revert w0.
    induction names as [|[name v] names IH]; intros w0.
    - exists (globals w0). destruct w0; reflexivity.
    - cbn [for_each]. rewrite bind_set_global. cbn [fst snd].
      destruct (IH (World (<[name := v]> (globals w0)) (store w0) (next_ref w0)
                          (trace w0))) as (g0 & E).
      exists g0. exact E. }
  destruct Hnames as (g0 & E).
  exists (<["device" := VDevice (torch_device cuda_is_available)]> g0).
  split; [apply lookup_insert_eq|].
  unfold bind at 1. rewrite E.
  change (String.eqb "__main__" "__main__") with true. cbv iota.
  rewrite bind_set_global, !bind_emit. cbn [globals store next_ref trace].
  rewrite <- app_assoc. reflexivity.
Qed.

(** X1: executed as the main program, the module first fixes the default
    dtype to float64 and the seed to 0; it binds [device] to the
    accelerator when one is available and to the host otherwise, and the
    binding is still there at the end; every Brownian path, initial state,
    time grid and problem that either experiment hands to a service lives
    on that device. *)
Theorem main_selects_device (w0 : @world BM) :
  exists tr : list event,
    trace (snd (main w0))
    = trace w0 ++ EvSetDefaultDtype "float64" :: EvManualSeed 0 :: tr /\
    Forall (on_device (if cuda_is_available then Cuda else Cpu)) tr /\
    globals (snd (main w0)) !! "device"
    = Some (VDevice (if cuda_is_available then Cuda else Cpu)).
Proof.
  destruct (main_configures w0) as (g & Hg & E). rewrite E. clear E.
  fold (torch_device cuda_is_available). set (dev := torch_device cuda_is_available) in *.
  set (w1 := World g (store w0) (next_ref w0)
                   (trace w0 ++ [EvSetDefaultDtype "float64"; EvManualSeed 0])).
  assert (Hdev1 : globals w1 !! "device" = Some (VDevice dev)) by exact Hg.
  destruct (sample_prefix BrownianPath_init sdeint_impl analytical_sample_impl
                          32 1 100 dev w1 Hdev1 ltac:(lia))
    as (tr1 & q & _ & Et1 & F1 & G1 & _).
  fold sample in Et1, G1.
  assert (D1 : Forall (on_device dev)
                      (EvBrownianPath (next_ref w1) (Tensor [] [q] dev)
                         (Tensor [32; 1]%nat (replicate (32 * 1) 0%Q) dev) :: tr1)).
  { constructor; [split; reflexivity|].
    eapply Forall_impl; [exact F1|].
    intros e. apply same_inputs_on_device; reflexivity. }
  unfold bind. destruct (sample w1) as [[[]|e] w2] eqn:Es; cbn [snd] in *.
  - assert (Hdev2 : globals w2 !! "device" = Some (VDevice dev))
      by (rewrite G1; exact Hdev1).
    destruct (strong_order_prefix_inputs BrownianPath_init sdeint_impl
                analytical_sample_impl linregress_impl 4096 10 dev w2 Hdev2)
      as (tr2 & Et2 & F2 & G2).
    fold strong_order in Et2, G2.
    eexists. split; [|split].
    + rewrite Et2, Et1. subst w1. cbn [trace].
      rewrite <- !app_assoc. cbn [app]. reflexivity.
    + apply Forall_cons in D1 as [Dh Dt].
      apply Forall_cons. split; [exact Dh|].
      apply Forall_app. split; [exact Dt|].
      constructor; [split; reflexivity|].
      eapply Forall_impl; [exact F2|].
      intros e. apply shares_inputs_on_device; reflexivity.
    + rewrite G2. exact Hdev2.
  - eexists. split; [|split].
    + rewrite Et1. subst w1. cbn [trace].
      rewrite <- !app_assoc. cbn [app]. reflexivity.
    + exact D1.
    + rewrite G1. exact Hdev1.
Qed.

(** X2: executed as the main program, the module gives each experiment a
    Brownian path of its own: the path-comparison experiment creates the
    first one and passes it to all its calls; if that experiment raises,
    the module raises the same exception and the convergence-order
    experiment does not start; otherwise the convergence-order experiment
    creates a second path, under the next reference, and passes that one
    to all its calls. *)
Theorem main_paths_per_experiment (w0 : @world BM) :
  exists (tr1 tr2 : list event) (t0a w0a : tensor),
    trace (snd (main w0))
    = trace w0 ++ EvSetDefaultDtype "float64" :: EvManualSeed 0
      :: EvBrownianPath (next_ref w0) t0a w0a :: tr1 ++ tr2 /\
    Forall (uses_bm (next_ref w0)) tr1 /\
    ((exists e : exn, fst (main w0) = Raise e /\ tr2 = []) \/
     (exists (t0b w0b : tensor) (tr2' : list event),
        tr2 = EvBrownianPath (S (next_ref w0)) t0b w0b :: tr2' /\
        Forall (uses_bm (S (next_ref w0))) tr2')).
Proof.
  destruct (main_configures w0) as (g & Hg & E). rewrite E. clear E.
  set (dev := torch_device cuda_is_available) in *.
  set (w1 := World g (store w0) (next_ref w0)
                   (trace w0 ++ [EvSetDefaultDtype "float64"; EvManualSeed 0])).
  assert (Hdev1 : globals w1 !! "device" = Some (VDevice dev)) by exact Hg.
  destruct (sample_prefix BrownianPath_init sdeint_impl analytical_sample_impl
                          32 1 100 dev w1 Hdev1 ltac:(lia))
    as (tr1 & q & _ & Et1 & F1 & G1 & N1).
  fold sample in Et1, G1, N1.
  assert (U1 : Forall (uses_bm (next_ref w0)) tr1).
  { eapply Forall_impl; [exact F1|]. intros e. apply same_inputs_uses_bm. }
  unfold bind. destruct (sample w1) as [[[]|e] w2] eqn:Es; cbn [fst snd] in *.
  - assert (Hdev2 : globals w2 !! "device" = Some (VDevice dev))
      by (rewrite G1; exact Hdev1).
    destruct (strong_order_prefix_inputs BrownianPath_init sdeint_impl
                analytical_sample_impl linregress_impl 4096 10 dev w2 Hdev2)
      as (tr2 & Et2 & F2 & _).
    fold strong_order in Et2.
    rewrite N1 in Et2, F2. subst w1. cbn [trace next_ref] in *.
    eexists tr1, _, _, _. split; [|split; [exact U1|]].
    + rewrite Et2, Et1. rewrite <- !app_assoc. cbn [app]. reflexivity.
    + right. eexists _, _, tr2. split; [reflexivity|].
      eapply Forall_impl; [exact F2|].
      intros e'. apply shares_inputs_uses_bm.
  - eexists tr1, [], _, _. split; [|split; [exact U1|]].
    + rewrite Et1. subst w1. cbn [trace next_ref].
      rewrite <- !app_assoc, app_nil_r. cbn [app]. reflexivity.
    + left. exists e. split; reflexivity.
Qed.

End MainBlock.

Lemma squeeze_t_rank3 (steps b d : nat) (t : tensor) :
  (2 <= steps)%nat -> (2 <= b)%nat -> (2 <= d)%nat ->
  shape t = [steps; b; d] ->
  tensor_t (squeeze t)
  = Raise (RuntimeError "t() expects a tensor with <= 2 dimensions").
Proof.
  intros Hs Hb Hd Hsh. unfold squeeze, tensor_t. rewrite Hsh. cbn [shape].
  rewrite !filter_cons_True by lia. reflexivity.
Qed.

Section SampleRank3.
Context {BM : Type}.
Variable BrownianPath_init : tensor -> tensor -> BM.
Variable sdeint_impl :
  sde -> tensor -> tensor -> Q -> string -> options -> BM -> result tensor * BM.
Variable analytical_sample_impl :
  sde -> tensor -> tensor -> BM -> result tensor * BM.

Local Abbreviation run :=
  (inspect_sample_at BrownianPath_init sdeint_impl analytical_sample_impl).

Ltac sample_rest :=
  intros; unfold makedirs_if_not_found;
  repeat (cbv zeta; emits_step);
  try (apply emits_plot_sample; intros []; exact I);
  try (intros; exact I).

(** X4: with a batch of at least two samples, at least two dimensions and
    a grid of at least two points, a run of [inspect_sample] in which
    every service call returns a trajectory of shape (steps, batch size,
    dimensionality) raises the error of [t()] on a tensor of rank 3 right
    after the four service calls: the plot directory is not created, no
    figure is opened and no file is saved. *)
Theorem sample_raises_on_rank3 (b d steps : nat) (dev : device) (w : @world BM) :
  globals w !! "device" = Some (VDevice dev) ->
  (2 <= b)%nat -> (2 <= d)%nat -> (2 <= steps)%nat ->
  forallb (returns_shape [steps; b; d])
          (drop (length (trace w)) (trace (snd (run b d steps w)))) = true ->
  fst (run b d steps w)
  = Raise (RuntimeError "t() expects a tensor with <= 2 dimensions") /\
  length (service_calls (drop (length (trace w)) (trace (snd (run b d steps w)))))
  = 4%nat /\
  Forall (fun e => e <> EvMakedirs img_dir /\ e <> EvFigure /\ saves_nothing e)
         (drop (length (trace w)) (trace (snd (run b d steps w)))).
Proof.
  intros Hdev Hb Hd Hs Hshape.
  remember (run b d steps w) as R eqn:ER.
  unfold inspect_sample_at in ER.
  rewrite (bind_read_device dev) in ER by exact Hdev. cbv beta zeta in ER.
  assert (Ht0 : tensor_index (tensor_to dev (torch_linspace 0 5 steps)) 0
                = Ok (Tensor [] (slice [] (data (torch_linspace 0 5 steps)) 0) dev)).
  { unfold tensor_index. cbn [shape tensor_to torch_linspace].
    rewrite decide_True by lia. reflexivity. }
  rewrite Ht0, bind_lift_ok in ER.
  rewrite (bind_read_device dev) in ER by exact Hdev. cbv beta zeta in ER.
  rewrite (bind_read_device dev) in ER by exact Hdev. cbv beta zeta in ER.
  unfold bind at 1, BrownianPath at 1 in ER. cbv beta iota zeta in ER.
  pose proof Hshape as Hcall. rewrite ER in Hcall.
  eapply sdeint_shaped in Hcall;
    [ | sample_rest | cbn [store]; apply lookup_insert_eq
      | cbn [trace]; rewrite length_app; lia ].
  destruct Hcall as (t1 & st1 & Sh1 & L1 & E1).
  rewrite E1 in ER. clear E1.
  pose proof Hshape as Hcall. rewrite ER in Hcall.
  eapply sdeint_shaped in Hcall;
    [ | sample_rest | cbn [store]; apply lookup_insert_eq
      | cbn [trace]; rewrite !length_app; lia ].
  destruct Hcall as (t2 & st2 & Sh2 & L2 & E2).
  rewrite E2 in ER. clear E2.
  pose proof Hshape as Hcall. rewrite ER in Hcall.
  eapply sdeint_shaped in Hcall;
    [ | sample_rest | cbn [store]; apply lookup_insert_eq
      | cbn [trace]; rewrite !length_app; lia ].
  destruct Hcall as (t3 & st3 & Sh3 & L3 & E3).
  rewrite E3 in ER. clear E3.
  pose proof Hshape as Hcall. rewrite ER in Hcall.
  eapply analytical_sample_shaped in Hcall;
    [ | sample_rest | cbn [store]; apply lookup_insert_eq
      | cbn [trace]; rewrite !length_app; lia ].
  destruct Hcall as (t4 & st4 & Sh4 & L4 & E4).
  rewrite E4 in ER. clear E4 Hshape.
  rewrite (squeeze_t_rank3 steps b d t1) in ER by assumption.
  unfold bind at 1, lift at 1 in ER.
  subst R. cbn [fst snd trace].
  split; [reflexivity|].
  rewrite <- !app_assoc, drop_app_length.
  split; [reflexivity|].
  cbn [app]. repeat constructor; discriminate.
Qed.

End SampleRank3.

Lemma sample_raises_on_rank3_witness :
  fst (ref_sample_run 2 2 3)
  = Raise (RuntimeError "t() expects a tensor with <= 2 dimensions") /\
  length (service_calls (drop (length (trace main_world))
                              (trace (snd (ref_sample_run 2 2 3)))))
  = 4%nat /\
  Forall (fun e => e <> EvMakedirs img_dir /\ e <> EvFigure /\ saves_nothing e)
         (drop (length (trace main_world)) (trace (snd (ref_sample_run 2 2 3)))).
Proof.
  apply (sample_raises_on_rank3 ref_bm_init ref_sdeint ref_analytical
           2 2 3 Cpu main_world).
  - reflexivity.
  - lia.
  - lia.
  - lia.
  - vm_compute. reflexivity.
Defined.

(** * When the convergence-order experiment returns *)

Lemma bind_assoc {BM A B C} (c : @M BM A) (k : A -> M B) (K : B -> M C) (w : world) :
  bind (bind c k) K w = bind c (fun a => bind (k a) K) w.
Proof. unfold bind. destruct (c w) as [[a|e] w1]; reflexivity. Qed.

Lemma bind_ret {BM A B} (a : A) (k : A -> @M BM B) (w : world) :
  bind (ret a) k w = k a w.
Proof. reflexivity. Qed.

Lemma unpack2_shaped (t : tensor) (rest : list nat) :
  shape t = 2%nat :: rest ->
  unpack2 t = Ok (Tensor rest (slice rest (data t) 0) (tdev t), terminal t).
Proof.
  intros Hsh. unfold unpack2, tensor_iter, terminal. rewrite Hsh. reflexivity.
Qed.

Lemma terminal_shape (t : tensor) (rest : list nat) :
  shape t = 2%nat :: rest -> shape (terminal t) = rest.
Proof. intros Hsh. unfold terminal. rewrite Hsh. reflexivity. Qed.

Lemma compute_mse_same_shape (x y : tensor) :
  shape x = shape y -> exists m : tensor, compute_mse x y = Ok m.
Proof.
  intros Hsh. unfold compute_mse. rewrite decide_True by exact Hsh. eauto.
Qed.

Lemma fst_bind_ok {BM A B} (c : @M BM A) (k : A -> M B) (w w1 : world) (a : A)
      (r : result B) :
  c w = (Ok a, w1) -> fst (k a w1) = r -> fst (bind c k w) = r.
Proof. intros Hc Hk. unfold bind. rewrite Hc. exact Hk. Qed.

Lemma del_last_run {BM} (v : loop_vars) (w : @world BM) :
  last_mse_ v <> None -> del_last v w = (Ok tt, w).
Proof.
  intros H. unfold del_last. destruct (last_mse_ v); [reflexivity | congruence].
Qed.

Lemma linregress_run {BM} impl xs ys r (w : @world BM) :
  impl xs ys = Ok r ->
  linregress impl xs ys w
  = (Ok r, World (globals w) (store w) (next_ref w) (trace w ++ [EvLinregress xs ys])).
Proof. intros H. unfold linregress, bind, emit, lift. rewrite H. reflexivity. Qed.

Lemma plt_plot_run {BM} xs ys label (w : @world BM) :
  first_dim xs = first_dim ys ->
  plt_plot xs ys label w
  = (Ok tt, World (globals w) (store w) (next_ref w) (trace w ++ [EvPlot xs ys label])).
Proof. intros H. unfold plt_plot. rewrite decide_True by exact H. reflexivity. Qed.

Ltac next_world := cbv beta zeta; cbn [globals store next_ref trace].

Section StrongOrderReturns.
Context {BM : Type}.
Variable BrownianPath_init : tensor -> tensor -> BM.
Variable sdeint_impl :
  sde -> tensor -> tensor -> Q -> string -> options -> BM -> result tensor * BM.
Variable analytical_sample_impl :
  sde -> tensor -> tensor -> BM -> result tensor * BM.
Variable linregress_impl :
  list xfloat -> list xfloat -> result (xfloat * xfloat * xfloat * xfloat * xfloat).

Local Abbreviation step := (strong_order_step sdeint_impl analytical_sample_impl).

Lemma emits_step_any (P : event -> Prop) s y0 ts bm dt v :
  (forall e, P e) -> emits P (step s y0 ts bm dt v).
Proof.
  intros HP. unfold strong_order_step.
  repeat (cbv zeta; emits_step); apply HP.
Qed.

(** One pass of the loop in a run whose service calls all return
    two-point trajectories of one shape: the pass returns. *)
Lemma step_returns {C} (K : loop_vars -> @M BM C) (sh : list nat)
      s y0 ts bm dt v (n : nat) (st : BM) (w : world) :
  (forall v', emits (fun _ => True) (K v')) ->
  store w !! bm = Some st -> (n <= length (trace w))%nat ->
  forallb (returns_shape (2%nat :: sh))
          (drop n (trace (snd (bind (step s y0 ts bm dt v) K w)))) = true ->
  exists (v' : loop_vars) (w' : world) (st' : BM),
    bind (step s y0 ts bm dt v) K w = K v' w' /\
    store w' !! bm = Some st' /\ (n <= length (trace w'))%nat /\
    length (euler_mses_ v') = S (length (euler_mses_ v)) /\
    length (milstein_mses_ v') = S (length (milstein_mses_ v)) /\
    length (srk_mses_ v') = S (length (srk_mses_ v)) /\
    last_mse_ v' <> None.
Proof.
  intros HK Hst Hn Hshape.
  remember (bind (step s y0 ts bm dt v) K w) as R eqn:ER.
  unfold strong_order_step in ER.
  rewrite bind_assoc in ER.
  pose proof Hshape as Hcall. rewrite ER in Hcall.
  eapply sdeint_shaped in Hcall;
    [ | intros; repeat (cbv zeta; emits_step); try apply HK; exact I
      | exact Hst | exact Hn ].
  destruct Hcall as (t1 & st1 & Sh1 & _ & E1). rewrite E1 in ER. clear E1.
  rewrite bind_assoc, (unpack2_shaped t1 sh Sh1), bind_lift_ok in ER.
  cbv beta zeta in ER. cbn [snd] in ER.
  rewrite bind_assoc in ER.
  pose proof Hshape as Hcall. rewrite ER in Hcall.
  eapply sdeint_shaped in Hcall;
    [ | intros; repeat (cbv zeta; emits_step); try apply HK; exact I
      | cbn [store]; apply lookup_insert_eq
      | cbn [trace]; rewrite !length_app; lia ].
  destruct Hcall as (t2 & st2 & Sh2 & _ & E2). rewrite E2 in ER. clear E2.
  rewrite bind_assoc, (unpack2_shaped t2 sh Sh2), bind_lift_ok in ER.
  cbv beta zeta in ER. cbn [snd] in ER.
  rewrite bind_assoc in ER.
  pose proof Hshape as Hcall. rewrite ER in Hcall.
  eapply sdeint_shaped in Hcall;
    [ | intros; repeat (cbv zeta; emits_step); try apply HK; exact I
      | cbn [store]; apply lookup_insert_eq
      | cbn [trace]; rewrite !length_app; lia ].
  destruct Hcall as (t3 & st3 & Sh3 & _ & E3). rewrite E3 in ER. clear E3.
  rewrite bind_assoc, (unpack2_shaped t3 sh Sh3), bind_lift_ok in ER.
  cbv beta zeta in ER. cbn [snd] in ER.
  rewrite bind_assoc in ER.
  pose proof Hshape as Hcall. rewrite ER in Hcall.
  eapply analytical_sample_shaped in Hcall;
    [ | intros; repeat (cbv zeta; emits_step); try apply HK; exact I
      | cbn [store]; apply lookup_insert_eq
      | cbn [trace]; rewrite !length_app; lia ].
  destruct Hcall as (t4 & st4 & Sh4 & _ & E4). rewrite E4 in ER. clear E4.
  rewrite bind_assoc, (unpack2_shaped t4 sh Sh4), bind_lift_ok in ER.
  cbv beta zeta in ER. cbn [snd] in ER.
  destruct (compute_mse_same_shape (terminal t1) (terminal t4)) as [m1 M1];
    [rewrite (terminal_shape t1 sh Sh1), (terminal_shape t4 sh Sh4); reflexivity|].
  destruct (compute_mse_same_shape (terminal t2) (terminal t4)) as [m2 M2];
    [rewrite (terminal_shape t2 sh Sh2), (terminal_shape t4 sh Sh4); reflexivity|].
  destruct (compute_mse_same_shape (terminal t3) (terminal t4)) as [m3 M3];
    [rewrite (terminal_shape t3 sh Sh3), (terminal_shape t4 sh Sh4); reflexivity|].
  rewrite bind_assoc, M1, bind_lift_ok in ER.
  rewrite bind_assoc, M2, bind_lift_ok in ER.
  rewrite bind_assoc, M3, bind_lift_ok in ER.
  cbv beta zeta in ER. rewrite bind_ret in ER.
  eexists _, _, st4. split; [exact ER|].
  cbn [store trace euler_mses_ milstein_mses_ srk_mses_ last_mse_].
  split; [apply lookup_insert_eq|].
  split; [rewrite !length_app; lia|].
  rewrite !length_app. cbn [length].
  repeat split; try lia. discriminate.
Qed.

(** The loop in such a run: it returns, with one error per step size in
    each list. *)
Lemma loop_returns {C} (K : loop_vars -> @M BM C) (sh : list nat) s y0 ts bm (n : nat) :
  (forall v', emits (fun _ => True) (K v')) ->
  forall (l : list Q) v (st : BM) (w : world),
    store w !! bm = Some st -> (n <= length (trace w))%nat ->
    forallb (returns_shape (2%nat :: sh))
            (drop n (trace (snd (bind (for_each l (step s y0 ts bm) v) K w)))) = true ->
    exists (v' : loop_vars) (w' : world),
      bind (for_each l (step s y0 ts bm) v) K w = K v' w' /\
      (n <= length (trace w'))%nat /\
      length (euler_mses_ v') = (length (euler_mses_ v) + length l)%nat /\
      length (milstein_mses_ v') = (length (milstein_mses_ v) + length l)%nat /\
      length (srk_mses_ v') = (length (srk_mses_ v) + length l)%nat /\
      (l <> [] \/ last_mse_ v <> None -> last_mse_ v' <> None).
Proof.
  intros HK. induction l as [|dt l IH]; intros v st w Hst Hn Hshape.
  - cbn [for_each] in *. rewrite bind_ret in *.
    exists v, w. split; [reflexivity|]. split; [exact Hn|].
    cbn [length]. rewrite !Nat.add_0_r. do 3 (split; [reflexivity|]).
    intros [H|H]; [congruence | exact H].
  - cbn [for_each] in *. rewrite bind_assoc in *.
    eapply step_returns in Hshape as Hstep;
      [ | intros v1; apply emits_bind;
          [ apply emits_for_each; intros; apply emits_step_any; intros; exact I
          | intros v2; apply HK ]
        | exact Hst | exact Hn ].
    destruct Hstep as (v1 & w1 & st1 & E1 & Hst1 & Hn1 & Le & Lm & Ls & Hl).
    rewrite E1 in Hshape |- *.
    destruct (IH v1 st1 w1 Hst1 Hn1 Hshape)
      as (v' & w' & E & Hn' & Le' & Lm' & Ls' & Hl').
    exists v', w'. split; [exact E|]. split; [exact Hn'|].
    cbn [length]. split; [lia|]. split; [lia|]. split; [lia|].
    intros _. apply Hl'. right. exact Hl.
Qed.

(** X7: once [device] is bound, if the regression primitive returns on
    every input and every service call of the run returns a well-formed
    trajectory of shape (2, batch size, dimensionality), then
    [inspect_strong_order] returns: the unpackings, the error metric, the
    [del] after the loop and the three [plt.plot] calls cannot fail. *)
Theorem strong_order_returns (b d : nat) (dev : device) (w : @world BM) :
  globals w !! "device" = Some (VDevice dev) ->
  (forall xs ys, exists r, linregress_impl xs ys = Ok r) ->
  forallb (returns_shape [2%nat; b; d])
          (drop (length (trace w))
                (trace (snd (inspect_strong_order_at BrownianPath_init sdeint_impl
                               analytical_sample_impl linregress_impl b d w)))) = true ->
  fst (inspect_strong_order_at BrownianPath_init sdeint_impl
         analytical_sample_impl linregress_impl b d w) = Ok tt.
Proof.
  intros Hdev Hreg Hshape.
  remember (inspect_strong_order_at BrownianPath_init sdeint_impl
              analytical_sample_impl linregress_impl b d w) as R eqn:ER.
  unfold inspect_strong_order_at in ER.
  rewrite (bind_read_device dev) in ER by exact Hdev. cbv beta zeta in ER.
  change (unpack2 (tensor_to dev (torch_tensor [0; 5]%Q)))
    with (Ok (Tensor [] [0%Q] dev, Tensor [] [5%Q] dev)) in ER.
  rewrite bind_lift_ok in ER. cbn [fst] in ER.
  rewrite (bind_read_device dev) in ER by exact Hdev. cbv beta zeta in ER.
  rewrite (bind_read_device dev) in ER by exact Hdev. cbv beta zeta in ER.
  unfold bind at 1, BrownianPath at 1 in ER. cbv beta iota zeta in ER.
  rewrite ER in Hshape.
  eapply loop_returns in Hshape as Hloop;
    [ | intros v'; unfold makedirs_if_not_found, plt_figure, plt_xscale,
          plt_yscale, plt_legend, plt_savefig, plt_close;
        repeat (cbv zeta; emits_step); exact I
      | cbn [store]; apply lookup_insert_eq
      | cbn [trace]; rewrite length_app; lia ].
  destruct Hloop as (v' & w' & E & _ & Le & Lm & Ls & Hl).
  rewrite E in ER. clear E Hshape. subst R.
  cbn [euler_mses_ milstein_mses_ srk_mses_ last_mse_ length] in Le, Lm, Ls, Hl.
  assert (Hlast : last_mse_ v' <> None) by (apply Hl; left; discriminate).
  clear Hl. generalize dependent w'. intros w'.
  destruct (Hreg (log (np_array_floats dts))
                 (map xhalve (log (np_array (euler_mses_ v'))))) as [re Fe].
  destruct (Hreg (log (np_array_floats dts))
                 (map xhalve (log (np_array (milstein_mses_ v'))))) as [rm Fm].
  destruct (Hreg (log (np_array_floats dts))
                 (map xhalve (log (np_array (srk_mses_ v'))))) as [rs Fs].
  eapply fst_bind_ok; [apply del_last_run; exact Hlast|].
  eapply fst_bind_ok; [apply linregress_run; exact Fe|]. next_world.
  eapply fst_bind_ok; [apply linregress_run; exact Fm|]. next_world.
  eapply fst_bind_ok; [apply linregress_run; exact Fs|]. next_world.
  eapply fst_bind_ok; [reflexivity|]. next_world.
  eapply fst_bind_ok;
    [apply plt_plot_run; change (length dts = length (euler_mses_ v'));
     rewrite Le; reflexivity|]. next_world.
  eapply fst_bind_ok;
    [apply plt_plot_run; change (length dts = length (milstein_mses_ v'));
     rewrite Lm; reflexivity|]. next_world.
  eapply fst_bind_ok;
    [apply plt_plot_run; change (length dts = length (srk_mses_ v'));
     rewrite Ls; reflexivity|]. next_world.
  do 5 (eapply fst_bind_ok; [reflexivity|]; next_world).
  reflexivity.
Qed.

End StrongOrderReturns.

Lemma strong_order_returns_witness : fst (ref_run 2 3) = Ok tt.
Proof.
  apply (strong_order_returns ref_bm_init ref_sdeint ref_analytical ols_linregress
           2 3 Cpu main_world).
  - reflexivity.
  - intros xs ys. eexists. reflexivity.
  - reflexivity.
Defined.

(** * The inputs of the convergence-order experiment's service calls *)

Section StrongOrderInputs.
Context {BM : Type}.
Variable BrownianPath_init : tensor -> tensor -> BM.
Variable sdeint_impl :
  sde -> tensor -> tensor -> Q -> string -> options -> BM -> result tensor * BM.
Variable analytical_sample_impl :
  sde -> tensor -> tensor -> BM -> result tensor * BM.
Variable linregress_impl :
  list xfloat -> list xfloat -> result (xfloat * xfloat * xfloat * xfloat * xfloat).

Local Abbreviation run :=
  (inspect_strong_order_at BrownianPath_init sdeint_impl analytical_sample_impl
                           linregress_impl).

(** X9: once [device] is bound, whatever the services return and wherever
    the run stops, every call [inspect_strong_order] makes to the
    integrator or to the analytical sampler passes the same problem
    [Ex2(d=d)] on the device, the same initial state of ones of shape
    (batch size, dimensionality) and the same two-point grid [0, 5], and
    all its tensors live on the device; the run rebinds no global name. *)
Theorem strong_order_calls_share_inputs (b d : nat) (dev : device) (w : @world BM) :
  globals w !! "device" = Some (VDevice dev) ->
  exists (e0 : event) (tr : list event),
    trace (snd (run b d w)) = trace w ++ e0 :: tr /\
    Forall (shares_inputs (Ex2 d dev) (Tensor [b; d] (replicate (b * d) 1%Q) dev)
                          (Tensor [2%nat] [0%Q; 5%Q] dev) (next_ref w)) tr /\
    Forall (on_device dev) (e0 :: tr) /\
    globals (snd (run b d w)) = globals w.
Proof.
  intros Hdev.
  destruct (strong_order_prefix_inputs BrownianPath_init sdeint_impl
              analytical_sample_impl linregress_impl b d dev w Hdev)
    as (tr & Etr & Ftr & G).
  assert (Hy0 : so_y0 dev b d = Tensor [b; d] (replicate (b * d) 1%Q) dev)
    by (unfold so_y0, tensor_to, torch_ones; simpl;
        rewrite Nat.mul_1_r; reflexivity).
  change (so_ts dev) with (Tensor [2%nat] [0%Q; 5%Q] dev) in Ftr.
  rewrite Hy0 in Ftr.
  eexists _, tr. split; [exact Etr|].
  split; [exact Ftr|]. split; [|exact G].
  apply Forall_cons. split; [split; reflexivity|].
  eapply Forall_impl; [exact Ftr|].
  intros e He. eapply shares_inputs_on_device; [| |exact He]; reflexivity.
Qed.

End StrongOrderInputs.

(** The theorem of X9 on the reference run with one sample and one
    dimension. *)
Lemma strong_order_calls_share_inputs_witness :
  exists (e0 : event) (tr : list event),
    trace (snd (ref_run 1 1)) = trace main_world ++ e0 :: tr /\
    Forall (shares_inputs (Ex2 1 Cpu) (Tensor [1; 1]%nat (replicate (1 * 1) 1%Q) Cpu)
                          (Tensor [2%nat] [0%Q; 5%Q] Cpu) (next_ref main_world)) tr /\
    Forall (on_device Cpu) (e0 :: tr) /\
    globals (snd (ref_run 1 1)) = globals main_world.
Proof.
  apply (strong_order_calls_share_inputs ref_bm_init ref_sdeint ref_analytical
           ols_linregress 1 1 Cpu main_world).
  reflexivity.
Defined.
